(** * pybug.transform: affine transformations and landmark alignment

    A shallow embedding of [pybug/transform/__init__.py] and the
    properties of its classes:

    - [AffineTransformation], [Translation], [Rotation]: transformations
      held as a homogeneous matrix;
    - [Alignment], [ParallelAlignment]: a source (or a stack of sources)
      and the target it is aligned to, with the lookup from the content
      hash of a source to its position in the stack.

    numpy arrays are modelled structurally (nested lists with their shape),
    for the ranks the module handles: 0, 1 and 2, and the rank 3 stack of
    [ParallelAlignment].  The scalar type of the arrays is a parameter
    ([Dtype]); results that depend on the laws of exact arithmetic say so
    through [ExactArith], or, where numpy computes in binary64 whatever it
    is given, through the laws they need of the values at hand
    ([exact_on]).  Exceptions are the [Raise] results of [result].
    The matrix of a transformation is held by reference, so the
    transformations run in a heap of arrays ([heapM]); an alignment is
    returned as a value, nothing stated here depending on what it shares
    with the arguments of its constructor. *)

From Stdlib Require Import Strings.Byte ZArith.
From Stdlib Require Import Floats.PrimFloat Floats.FloatOps Floats.SpecFloat.
From stdpp Require Import base option list gmap strings.

(** ** Scalars, digests and exceptions *)

(** The element type of an array with the operations numpy performs on
    it: [np.zeros] and [np.eye] need 0 and 1, [+] and [np.dot] need sum and
    product, [mean] divides a sum by a count, and [view(np.uint8)] exposes
    the bytes of an element. *)
Class Dtype (F : Type) := {
  f0 : F;
  f1 : F;
  fadd : F → F → F;
  fmul : F → F → F;
  fdiv : F → F → F;
  of_count : nat → F;
  tobytes : F → list byte;
}.

(** The laws of exact arithmetic that [np.dot] with an identity matrix
    relies on. *)
Class ExactArith (F : Type) `{Dtype F} : Prop := {
  fadd_0_l : ∀ a : F, fadd f0 a = a;
  fadd_0_r : ∀ a : F, fadd a f0 = a;
  fmul_0_l : ∀ a : F, fmul f0 a = f0;
  fmul_1_l : ∀ a : F, fmul f1 a = a;
}.

(** [hashlib.sha1(buffer).hexdigest()]. *)
Class Digest := sha1_hexdigest : list byte → string.

(** The exceptions the module raises or lets through. [Dangling] is not a
    Python exception: it marks a read of a location that holds no array,
    which a Python reference never does. *)
Inductive exn :=
  | AlignmentError
  | AssertionError
  | IndexError
  | KeyError
  | ValueError
  | Dangling.

Inductive result (A : Type) :=
  | Ok (a : A)
  | Raise (e : exn).
Arguments Ok {A} a.
Arguments Raise {A} e.

#[global] Instance result_ret : MRet result := λ A a, Ok a.
#[global] Instance result_bind : MBind result := λ A B f r,
  match r with
  | Ok a => f a
  | Raise e => Raise e
  end.

#[global] Instance exn_eq_dec : EqDecision exn.
Proof. solve_decision. Defined.

Section numpy.
Context {F : Type} `{Dtype F}.

(** ** Arrays *)

(** A 2-d array of shape [(nrows, ncols)]; the shape is kept apart from
    the rows, as an array of shape (0, 3) has no row to read it from. *)
Record array2 := Array2 {
  nrows : nat;
  ncols : nat;
  rows : list (list F);
}.

Inductive ndarray :=
  | A0 (a : F)
  | A1 (v : list F)
  | A2 (m : array2).

(** A 3-d array of shape [(dim0, dim1, dim2)]. *)
Record array3 := Array3 {
  dim0 : nat;
  dim1 : nat;
  dim2 : nat;
  cells : list (list (list F));
}.

Definition wf2 (m : array2) : bool :=
  bool_decide (length (rows m) = nrows m)
  && forallb (λ r, bool_decide (length r = ncols m)) (rows m).

Definition wf (a : ndarray) : bool :=
  match a with
  | A0 _ | A1 _ => true
  | A2 m => wf2 m
  end.

Definition wf3 (t : array3) : bool :=
  bool_decide (length (cells t) = dim0 t)
  && forallb (λ p, bool_decide (length p = dim1 t)
                   && forallb (λ c, bool_decide (length c = dim2 t)) p)
             (cells t).

(** [a.shape] *)
Definition shape (a : ndarray) : list nat :=
  match a with
  | A0 _ => []
  | A1 v => [length v]
  | A2 m => [nrows m; ncols m]
  end.

Definition shape3 (t : array3) : list nat := [dim0 t; dim1 t; dim2 t].

(** [a.shape[k]]: a tuple index out of range is an [IndexError]. *)
Definition shape_at (a : ndarray) (k : nat) : result nat :=
  match shape a !! k with
  | Some n => Ok n
  | None => Raise IndexError
  end.

(** ** numpy primitives *)

(** [np.eye(n)] *)
Definition eye (n : nat) : array2 :=
  Array2 n n
    (fmap (λ i, fmap (λ j, if bool_decide (i = j) then f1 else f0) (seq 0 n))
         (seq 0 n)).

(** [np.zeros([l, d, n])] *)
Definition zeros3 (l d n : nat) : array3 :=
  Array3 l d n (replicate l (replicate d (replicate n f0))).

(** [l[:-1]] *)
Definition py_init {A} (l : list A) : list A := take (length l - 1) l.

(** [a[:-1, :-1]]: two indices on an array of rank below 2 are an
    [IndexError]. *)
Definition getitem_init_init (a : ndarray) : result ndarray :=
  match a with
  | A0 _ | A1 _ => Raise IndexError
  | A2 m => Ok (A2 (Array2 (nrows m - 1) (ncols m - 1)
                           (fmap py_init (py_init (rows m)))))
  end.

(** [a[-1, :-1]]: index -1 is the last row, out of bounds when there is
    none. *)
Definition getitem_last_init (a : ndarray) : result ndarray :=
  match a with
  | A0 _ | A1 _ => Raise IndexError
  | A2 m =>
      if bool_decide (nrows m = 0) then Raise IndexError
      else match rows m !! (nrows m - 1) with
           | Some r => Ok (A1 (py_init r))
           | None => Raise IndexError
           end
  end.

(** Broadcasting of one dimension against another: equal, or one of them
    is 1. *)
Definition bdim (n m : nat) : result nat :=
  if bool_decide (n = m) then Ok n
  else if bool_decide (n = 1) then Ok m
  else if bool_decide (m = 1) then Ok n
  else Raise ValueError.

(** An axis of length 1 is repeated to length [k]; an axis that already
    has length [k] is kept. *)
Definition stretch {A} (k : nat) (l : list A) : list A :=
  if bool_decide (length l = k) then l
  else match l with
       | [x] => replicate k x
       | _ => l
       end.

Definition add_vec (k : nat) (u v : list F) : list F :=
  zip_with fadd (stretch k u) (stretch k v).

(** [a + b] with broadcasting. *)
Definition np_add (a b : ndarray) : result ndarray :=
  match a, b with
  | A0 x, A0 y => Ok (A0 (fadd x y))
  | A0 x, A1 v => Ok (A1 (fmap (fadd x) v))
  | A0 x, A2 m =>
      Ok (A2 (Array2 (nrows m) (ncols m) (fmap (fmap (M:=list) (fadd x)) (rows m))))
  | A1 u, A0 y => Ok (A1 (fmap (λ x, fadd x y) u))
  | A2 m, A0 y =>
      Ok (A2 (Array2 (nrows m) (ncols m)
                     (fmap (fmap (M:=list) (λ x, fadd x y)) (rows m))))
  | A1 u, A1 v =>
      k ← bdim (length u) (length v);
      Ok (A1 (add_vec k u v))
  | A2 m, A1 v =>
      k ← bdim (ncols m) (length v);
      Ok (A2 (Array2 (nrows m) k (fmap (λ r, add_vec k r v) (rows m))))
  | A1 u, A2 m =>
      k ← bdim (length u) (ncols m);
      Ok (A2 (Array2 (nrows m) k (fmap (λ r, add_vec k u r) (rows m))))
  | A2 m, A2 p =>
      r ← bdim (nrows m) (nrows p);
      k ← bdim (ncols m) (ncols p);
      Ok (A2 (Array2 r k (zip_with (add_vec k) (stretch r (rows m))
                                               (stretch r (rows p)))))
  end.

(** The sum of products of two vectors of one length. *)
Definition dotp (u v : list F) : F := foldr fadd f0 (zip_with fmul u v).

(** The columns of a 2-d array. *)
Definition columns (m : array2) : list (list F) :=
  fmap (λ k, fmap (λ r, default f0 (r !! k)) (rows m)) (seq 0 (ncols m)).

(** [np.dot(a, b)]: a scalar operand multiplies; otherwise the last axis
    of [a] is summed against the first axis of [b], and the two must have
    one length. *)
Definition np_dot (a b : ndarray) : result ndarray :=
  match a, b with
  | A0 x, A0 y => Ok (A0 (fmul x y))
  | A0 x, A1 v => Ok (A1 (fmap (fmul x) v))
  | A0 x, A2 m =>
      Ok (A2 (Array2 (nrows m) (ncols m) (fmap (fmap (M:=list) (fmul x)) (rows m))))
  | A1 u, A0 y => Ok (A1 (fmap (λ x, fmul x y) u))
  | A2 m, A0 y =>
      Ok (A2 (Array2 (nrows m) (ncols m)
                     (fmap (fmap (M:=list) (λ x, fmul x y)) (rows m))))
  | A1 u, A1 v =>
      if bool_decide (length u = length v) then Ok (A0 (dotp u v))
      else Raise ValueError
  | A2 m, A1 v =>
      if bool_decide (ncols m = length v)
      then Ok (A1 (fmap (λ r, dotp r v) (rows m)))
      else Raise ValueError
  | A1 u, A2 m =>
      if bool_decide (length u = nrows m)
      then Ok (A1 (fmap (dotp u) (columns m)))
      else Raise ValueError
  | A2 m, A2 p =>
      if bool_decide (ncols m = nrows p)
      then Ok (A2 (Array2 (nrows m) (ncols p)
                          (fmap (λ r, fmap (dotp r) (columns p)) (rows m))))
      else Raise ValueError
  end.

End numpy.

Arguments array2 F : clear implicits.
Arguments ndarray F : clear implicits.
Arguments array3 F : clear implicits.

(** ** Slice assignment, the stack of sources and the content hash *)

Section slices.
Context {F : Type} `{Dtype F} `{Digest}.

(** An assignment broadcasts the value to the shape of the slice it is
    written to: an axis of the value has the length of the slice's axis, or
    1. *)
Definition bto (src dst : nat) : result unit :=
  if bool_decide (src = dst) then Ok ()
  else if bool_decide (src = 1) then Ok ()
  else Raise ValueError.

(** [m[-1, :-1] = v] for a 1-d [v]. *)
Definition setitem_last_init (m : array2 F) (v : list F) : result (array2 F) :=
  if bool_decide (nrows m = 0) then Raise IndexError
  else
    _ ← bto (length v) (ncols m - 1);
    Ok (Array2 (nrows m) (ncols m)
          (alter (λ old, stretch (ncols m - 1) v ++ drop (ncols m - 1) old)
                 (nrows m - 1) (rows m))).

(** [m[:-1, :-1] = r] for a 2-d [r]. *)
Definition setitem_init_init (m r : array2 F) : result (array2 F) :=
  _ ← bto (nrows r) (nrows m - 1);
  _ ← bto (ncols r) (ncols m - 1);
  Ok (Array2 (nrows m) (ncols m)
        (zip_with (λ old new, stretch (ncols m - 1) new ++ drop (ncols m - 1) old)
                  (py_init (rows m)) (stretch (nrows m - 1) (rows r))
         ++ drop (nrows m - 1) (rows m))).

(** The value of an assignment, broadcast to a slice of shape [(r, c)]. *)
Definition broadcast_to (a : ndarray F) (r c : nat) : result (list (list F)) :=
  match a with
  | A0 x => Ok (replicate r (replicate c x))
  | A1 v =>
      _ ← bto (length v) c;
      Ok (replicate r (stretch c v))
  | A2 m =>
      _ ← bto (nrows m) r;
      _ ← bto (ncols m) c;
      Ok (stretch r (fmap (stretch c) (rows m)))
  end.

(** [t[:, :, i] = a] *)
Definition setitem_slice (t : array3 F) (i : nat) (a : ndarray F)
  : result (array3 F) :=
  if bool_decide (i < dim2 t) then
    b ← broadcast_to a (dim0 t) (dim1 t);
    Ok (Array3 (dim0 t) (dim1 t) (dim2 t)
          (zip_with (zip_with (λ cell x, <[i:=x]> cell)) (cells t) b))
  else Raise IndexError.

(** [t[..., i]] *)
Definition getitem_slice (t : array3 F) (i : nat) : result (ndarray F) :=
  if bool_decide (i < dim2 t) then
    Ok (A2 (Array2 (dim0 t) (dim1 t)
              (fmap (fmap (M:=list) (λ cell, default f0 (cell !! i))) (cells t))))
  else Raise IndexError.

(** [np.add.reduce] over one cell: the sum of no element is 0. *)
Definition np_sum (cell : list F) : F :=
  match cell with
  | [] => f0
  | x :: xs => foldl fadd x xs
  end.

(** [t.mean(2)]: the sum along the last axis, divided by its length. *)
Definition mean2 (t : array3 F) : array2 F :=
  Array2 (dim0 t) (dim1 t)
    (fmap (fmap (M:=list) (λ cell, fdiv (np_sum cell) (of_count (dim2 t)))) (cells t)).

(** [m[..., np.newaxis]] *)
Definition newaxis (m : array2 F) : array3 F :=
  Array3 (nrows m) (ncols m) 1 (fmap (fmap (M:=list) (λ x, [x])) (rows m)).

(** [array.view(np.uint8)]: the bytes of the elements in row-major order.
    numpy refuses to change the item size of a 0-d array. *)
Definition view_uint8 (a : ndarray F) : result (list byte) :=
  match a with
  | A0 _ => Raise ValueError
  | A1 v => Ok (flat_map tobytes v)
  | A2 m => Ok (flat_map tobytes (concat (rows m)))
  end.

Definition _numpy_hash (a : ndarray F) : result string :=
  b ← view_uint8 a;
  Ok (sha1_hexdigest b).

End slices.

(** ** The heap of arrays *)

(** A transformation holds a reference to its matrix, which the caller
    may hold too: arrays live in a heap, and a reference is a location. *)
Abbreviation loc := nat (only parsing).
Abbreviation heap F := (list (ndarray F)) (only parsing).

Section heap.
Context {F : Type}.

Definition heapM (A : Type) : Type := heap F → result (A * heap F).

#[global] Instance heapM_ret : MRet heapM := λ A a h, Ok (a, h).

#[global] Instance heapM_bind : MBind heapM := λ A B f m h,
  match m h with
  | Ok (a, h') => f a h'
  | Raise e => Raise e
  end.

(** A pure numpy computation, run in the heap. *)
Definition lift {A} (r : result A) : heapM A := λ h,
  match r with
  | Ok a => Ok (a, h)
  | Raise e => Raise e
  end.

(** A new array object. *)
Definition alloc (a : ndarray F) : heapM loc := λ h, Ok (length h, h ++ [a]).

Definition deref (l : loc) : heapM (ndarray F) := λ h,
  match h !! l with
  | Some a => Ok (a, h)
  | None => Raise Dangling
  end.

End heap.

Arguments heapM F A : clear implicits.

(** ** AffineTransformation, Translation, Rotation *)

Module AffineTransformation.
Section defs.
Context {F : Type} `{Dtype F}.

Record t := Build { homogeneous_matrix : loc }.

(** [__init__]: the matrix is kept by reference. *)
Definition init (homogeneous_matrix : loc) : t := Build homogeneous_matrix.

(** The property [linear_transformation]. *)
Definition linear_transformation (self : t) : heapM F (ndarray F) :=
  m ← deref (homogeneous_matrix self);
  lift (getitem_init_init m).

(** The property [translation]. *)
Definition translation (self : t) : heapM F (ndarray F) :=
  m ← deref (homogeneous_matrix self);
  lift (getitem_last_init m).

Definition chain (self x : t) : heapM F t :=
  a ← deref (homogeneous_matrix self);
  b ← deref (homogeneous_matrix x);
  p ← lift (np_dot a b);
  l ← alloc p;
  mret (init l).

Definition apply (self : t) (x : ndarray F) : heapM F (ndarray F) :=
  lin ← linear_transformation self;
  tr ← translation self;
  y ← lift (np_add x tr);
  lift (np_dot lin y).

End defs.
Arguments t : clear implicits.
End AffineTransformation.

Module Translation.
Section defs.
Context {F : Type} `{Dtype F}.

(** [transformation] is a 1-d array, given by its elements. *)
Definition init (transformation : list F) : heapM F AffineTransformation.t :=
  let homogeneous_matrix := eye (length transformation + 1) in
  m ← lift (setitem_last_init homogeneous_matrix transformation);
  l ← alloc (A2 m);
  mret (AffineTransformation.init l).

End defs.
End Translation.

Module Rotation.
Section defs.
Context {F : Type} `{Dtype F}.

(** [rotation] is a 2-d array. *)
Definition init (rotation : array2 F) : heapM F AffineTransformation.t :=
  let homogeneous_matrix := eye (nrows rotation + 1) in
  m ← lift (setitem_init_init homogeneous_matrix rotation);
  l ← alloc (A2 m);
  mret (AffineTransformation.init l).

End defs.
End Rotation.

(** ** Alignment *)

Module Alignment.
Section defs.
Context {F : Type}.

Record t := Build {
  source : ndarray F;
  aligned_source : ndarray F;
  n_landmarks : nat;
  n_dim : nat;
  target : ndarray F;
}.

(** [__init__]: the shape of the source is unpacked into two names, and a
    shape of another length is turned into an [AlignmentError]; the
    [assert] that follows has [self.n_dim] as its condition and the
    comparison with the shape of the target as its message. *)
Definition init (source target : ndarray F) : result t :=
  let aligned_source := source in
  match shape source with
  | [n_landmarks; n_dim] =>
      if bool_decide (n_dim = 0) then Raise AssertionError
      else Ok (Build source aligned_source n_landmarks n_dim target)
  | _ => Raise AlignmentError
  end.

End defs.
Arguments t : clear implicits.
End Alignment.

(** ** ParallelAlignment *)

Module ParallelAlignment.
Section defs.
Context {F : Type} `{Dtype F} `{Digest}.

Record t := Build {
  _lookup : gmap string nat;
  sources : array3 F;
  aligned_sources : array3 F;
  target : array3 F;
}.

(** The argument [sources]: one array, or a list of arrays. *)
Inductive sources_arg :=
  | Bare (a : ndarray F)
  | Several (l : list (ndarray F)).

(** The body of [for i, source in enumerate(sources)], from position [i]
    on, over the lookup and the stack built so far. The condition of the
    [assert] is [n_dim]. *)
Fixpoint stack_from (n_dim : nat) (i : nat) (rest : list (ndarray F))
    (st : gmap string nat * array3 F) : result (gmap string nat * array3 F) :=
  match rest with
  | [] => Ok st
  | source :: rest =>
      if bool_decide (n_dim = 0) then Raise AssertionError
      else
        stack ← setitem_slice st.2 i source;
        source_hash ← _numpy_hash source;
        stack_from n_dim (S i) rest (<[source_hash:=i]> st.1, stack)
  end.

(** [__init__]; [target] is a 2-d array, or [None]. *)
Definition init (sources : sources_arg) (target : option (array2 F))
  : result t :=
  let sources :=
    match sources with
    | Bare a => [a]
    | Several l => l
    end in
  let n_sources := length sources in
  s0 ← match sources !! 0 with
       | Some s => Ok s
       | None => Raise IndexError
       end;
  n_landmarks ← shape_at s0 0;
  n_dim ← shape_at s0 1;
  st ← stack_from n_dim 0 sources (∅, zeros3 n_landmarks n_dim n_sources);
  let aligned_sources := st.2 in
  match target with
  | None => Ok (Build st.1 st.2 aligned_sources (newaxis (mean2 st.2)))
  | Some target =>
      if bool_decide (n_dim = 0) then Raise AssertionError
      else Ok (Build st.1 st.2 aligned_sources (newaxis target))
  end.

Definition n_landmarks (self : t) : nat := dim0 (sources self).

Definition n_dimensions (self : t) : nat := dim1 (sources self).

Definition n_sources (self : t) : nat := dim2 (sources self).

Definition aligned_version_of_source (self : t) (source : ndarray F)
  : result (ndarray F) :=
  h ← _numpy_hash source;
  i ← match _lookup self !! h with
      | Some i => Ok i
      | None => Raise KeyError
      end;
  getitem_slice (aligned_sources self) i.

End defs.
Arguments t : clear implicits.
Arguments sources_arg : clear implicits.
End ParallelAlignment.

(** ** The words of the statements

    What the spec calls the parts of a homogeneous matrix and the
    element-wise mean, written from its words, and the shapes the proofs
    give to the matrices and the stack the code builds. *)

Section spec_words.
Context {F : Type} `{Dtype F} `{Digest}.

(** The top-left [n]-by-[n] block of a matrix. *)
Definition top_left_block (n : nat) (M : array2 F) : ndarray F :=
  A2 (Array2 n n (fmap (take n) (take n (rows M)))).

(** The first [n] entries of the row of index [n]. *)
Definition last_row_prefix (n : nat) (M : array2 F) : ndarray F :=
  A1 (take n (default [] (rows M !! n))).

(** The row of index [i] of an identity matrix, from column [s] on. *)
Definition unit_row (i s n : nat) : list F :=
  (λ j, if bool_decide (i = j) then f1 else f0) <$> seq s n.

(** The identity matrix with the offset [t] at the start of its last
    row. *)
Definition translation_matrix (t : list F) : array2 F :=
  Array2 (length t + 1) (length t + 1)
    (alter (λ old, t ++ drop (length t) old) (length t)
           (rows (eye (length t + 1)))).

(** The [L] rows of [D] elements that [f] gives by row and column. *)
Definition tabulate {A} (L D : nat) (f : nat → nat → A) : list (list A) :=
  (λ l, (λ d, f l d) <$> seq 0 D) <$> seq 0 L.

(** A well-formed 2-d array of shape [(l, d)]. *)
Definition has_shape (l d : nat) (a : ndarray F) : Prop :=
  shape a = [l; d] ∧ wf a = true.

(** The element of a 2-d array at row [l] and column [d]. *)
Definition entry (a : ndarray F) (l d : nat) : F :=
  match a with
  | A2 m => default f0 (rows m !! l ≫= (.!! d))
  | _ => f0
  end.

(** The mean of the sources, element by element: at [(l, d)] the sum of
    the elements the sources have there, divided by the number of
    sources. *)
Definition elementwise_mean (srcs : list (ndarray F)) (l d : nat) : F :=
  fdiv (np_sum ((λ s, entry s l d) <$> srcs)) (of_count (length srcs)).

(** The element-wise mean of sources of shape [(L, D)], as an array of
    shape [(L, D, 1)]. *)
Definition mean_target (srcs : list (ndarray F)) (L D : nat) : array3 F :=
  Array3 L D 1 (tabulate L D (λ l d, [elementwise_mean srcs l d])).

(** A cell of the stack after the sources [es] are written to it from
    position [i] on. *)
Fixpoint overwrite (i : nat) (es : list F) (c : list F) : list F :=
  match es with
  | [] => c
  | e :: es => overwrite (S i) es (<[i:=e]> c)
  end.

(** [self.aligned_sources = T]: the attribute is public, and holds the
    aligned sources once an alignment has produced them. *)
Definition set_aligned_sources (self : ParallelAlignment.t F) (T : array3 F)
  : ParallelAlignment.t F :=
  ParallelAlignment.Build (ParallelAlignment._lookup self)
    (ParallelAlignment.sources self) T (ParallelAlignment.target self).

(** "[aligned_version_of_source] of an array with the bytes of a source
    returns the slice of [aligned_sources] at the position of that source
    in the list", for the [ParallelAlignment] of the sources [srcs]. *)
Definition returns_slice_at_position_of_source (srcs : list (ndarray F))
  : Prop :=
  ∀ (self : ParallelAlignment.t F) (T : array3 F) (i : nat) (s q : ndarray F),
    ParallelAlignment.init (ParallelAlignment.Several srcs) None = Ok self →
    shape3 T = shape3 (ParallelAlignment.aligned_sources self) →
    srcs !! i = Some s →
    view_uint8 q = view_uint8 s →
    ParallelAlignment.aligned_version_of_source (set_aligned_sources self T) q
    = getitem_slice T i.

End spec_words.

(** ** Further words: the laws of a commutative semiring, and what the
    stack holds of a source *)

(** The laws of exact arithmetic that a product of matrices relies on,
    beyond those of [ExactArith]. *)
Class ExactSemiring (F : Type) `{Dtype F} : Prop := {
  fadd_assoc : ∀ a b c : F, fadd a (fadd b c) = fadd (fadd a b) c;
  fadd_comm : ∀ a b : F, fadd a b = fadd b a;
  fmul_assoc : ∀ a b c : F, fmul a (fmul b c) = fmul (fmul a b) c;
  fmul_add_distr_l : ∀ a b c : F, fmul a (fadd b c) = fadd (fmul a b) (fmul a c);
  fmul_add_distr_r : ∀ a b c : F, fmul (fadd a b) c = fadd (fmul a c) (fmul b c);
  fmul_0_r : ∀ a : F, fmul a f0 = f0;
  fmul_1_r : ∀ a : F, fmul a f1 = a;
}.

#[global] Instance result_eq_dec {A} `{EqDecision A} : EqDecision (result A).
Proof. solve_decision. Defined.

Section more_words.
Context {F : Type} `{Dtype F} `{Digest}.

(** The last axis of an array has length [n]. *)
Definition last_axis (a : ndarray F) (n : nat) : Prop :=
  last (shape a) = Some n.

(** The element that a source gives to the slice of shape (L, D) it is
    written to, at row [l] and column [d]: its own element there, or the
    one its broadcast repeats. *)
Definition stacked_entry (a : ndarray F) (L D l d : nat) : F :=
  match broadcast_to a L D with
  | Ok b => default f0 (b !! l ≫= (.!! d))
  | Raise _ => f0
  end.

(** The slice of shape (L, D) that a source is written as. *)
Definition stacked_slice (a : ndarray F) (L D : nat) : ndarray F :=
  A2 (Array2 L D (tabulate L D (stacked_entry a L D))).

(** A source that the loop of [ParallelAlignment] accepts into a stack of
    slices of shape (L, D): its broadcast to that shape is defined and has
    that shape, and its bytes can be viewed. *)
Definition stackable (L D : nat) (a : ndarray F) : Prop :=
  wf a = true
  ∧ (∃ b, broadcast_to a L D = Ok b)
  ∧ (∃ k, _numpy_hash a = Ok k).

End more_words.

(** ** Arithmetic that is exact on the values at hand

    [Translation] and [Rotation] build their matrix from [np.eye], an
    array of binary64 numbers, so the products and sums of [apply] and
    [chain] are binary64 operations whatever the offsets and the points
    are. Binary64 does not have the laws of [ExactArith] at all values:
    0 * inf is NaN, and -0.0 + 0 is +0.0. What a product with the rows of
    an identity matrix needs, it needs of the values it meets only. *)

Section where_exact.
Context {F : Type} `{Dtype F}.

(** The elements of an array. *)
Definition entries (a : ndarray F) : list F :=
  match a with
  | A0 x => [x]
  | A1 v => v
  | A2 m => mjoin (rows m)
  end.

(** The values [ys] are kept by the identity on their left: 1 times one of
    them is that value, adding 0 to it leaves it, and the product of 0 and
    one of them adds nothing to 0 or to another of them. *)
Definition exact_on (ys : list F) : Prop :=
  Forall (λ a, fmul f1 a = a ∧ fadd a f0 = a
               ∧ Forall (λ b, fadd (fmul f0 a) b = b) (f0 :: ys)) ys.

(** The values [xs] are kept by the entries of an identity on their
    right, next to the values [ys]: one of [xs] times 1 is that value,
    and its product with 0 adds nothing to one of [ys]. *)
Definition exact_beside (xs ys : list F) : Prop :=
  Forall (λ a, fmul a f1 = a ∧ Forall (λ b, fadd (fmul a f0) b = b) ys) xs.

(** "[Translation(t).apply(x)] equals [x + t]", for every offset and all
    points whose sum with the offset the product with the linear part
    accepts. *)
Definition translation_apply_is_always_sum : Prop :=
  ∀ (t : list F) (x y : ndarray F) (h : heap F),
    wf x = true →
    np_add x (A1 t) = Ok y →
    shape y !! 0 = Some (length t) →
    (T ← Translation.init t; AffineTransformation.apply T x) h
    = Ok (y, h ++ [A2 (translation_matrix t)]).

End where_exact.

Arguments translation_apply_is_always_sum F {_}.

Section duplicates.
Context {F : Type} `{Dtype F} `{Digest}.

(** "When two positions i < j of the list hold arrays of one byte
    content, construction succeeds, the lookup maps that content to j, and
    [aligned_version_of_source] for that content returns the slice at j",
    for the [ParallelAlignment] of the sources [srcs]. *)
Definition duplicate_maps_to_the_later_of_two (srcs : list (ndarray F))
  : Prop :=
  ∀ (i j : nat) (a b : ndarray F),
    i < j → srcs !! i = Some a → srcs !! j = Some b →
    view_uint8 a = view_uint8 b →
    ∃ self hk r,
      ParallelAlignment.init (ParallelAlignment.Several srcs) None = Ok self
      ∧ _numpy_hash a = Ok hk
      ∧ ParallelAlignment._lookup self !! hk = Some j
      ∧ getitem_slice (ParallelAlignment.aligned_sources self) j = Ok r
      ∧ ParallelAlignment.aligned_version_of_source self a = Ok r.

End duplicates.

(** ** A model of the parameters

    Integers as the scalars, with their exact arithmetic, and the bytes of
    a buffer themselves as its digest: a digest without collisions, which
    is what the lookup of [ParallelAlignment] expects of SHA-1. Division
    is the quotient of integers; the means of the examples divide without
    remainder. The examples of the alignments and of the products of
    matrices run on this model. *)

Module IntModel.

Definition byte_of_Z (z : Z) : byte :=
  default x00 (Byte.of_N (Z.to_N (z `mod` 256))).

(** The 8 bytes of a 64-bit integer, least significant first. *)
Definition int64_bytes (z : Z) : list byte :=
  fmap (λ k, byte_of_Z (Z.shiftr z (8 * Z.of_nat k))) (seq 0 8).

#[export] Instance Z_dtype : Dtype Z := {|
  f0 := 0%Z;
  f1 := 1%Z;
  fadd := Z.add;
  fmul := Z.mul;
  fdiv := Z.div;
  of_count := Z.of_nat;
  tobytes := int64_bytes;
|}.

#[export] Instance Z_exact : ExactArith Z.
Proof. split; intros a; simpl; lia. Qed.

#[export] Instance bytes_digest : Digest := String.string_of_list_byte.

Definition vec (l : list Z) : ndarray Z := A1 l.

Definition mat (r c : nat) (l : list (list Z)) : ndarray Z :=
  A2 (Array2 r c l).

(** The digest of an array that has one. *)
Definition digest_of (a : ndarray Z) : string :=
  match _numpy_hash a with
  | Ok k => k
  | Raise _ => String.EmptyString
  end.

(** A homogeneous matrix whose last row and last column differ. *)
Definition M3 : array2 Z :=
  Array2 3 3 [[1; 2; 100]; [3; 4; 200]; [5; 6; 1]]%Z.

Definition R2 : array2 Z := Array2 2 2 [[1; 2]; [3; 4]]%Z.

(** The homogeneous matrix of [Rotation(R2)], and its product with
    [M3] on the left. *)
Definition R2h : ndarray Z := mat 3 3 [[1; 2; 0]; [3; 4; 0]; [0; 0; 1]]%Z.
Definition M3R2h : ndarray Z :=
  mat 3 3 [[7; 10; 100]; [15; 22; 200]; [23; 34; 1]]%Z.

(** Two points in the plane, an offset, and their sum. *)
Definition offset : list Z := [10; 20]%Z.
Definition points : ndarray Z := mat 2 2 [[1; 2]; [3; 4]]%Z.
Definition moved : ndarray Z := mat 2 2 [[11; 22]; [13; 24]]%Z.

(** A source of shape (3, 2), a target of shape (4, 2), and a 1-d
    source. *)
Definition source32 : ndarray Z := mat 3 2 [[1; 2]; [3; 4]; [5; 6]]%Z.
Definition target42 : ndarray Z :=
  mat 4 2 [[1; 2]; [3; 4]; [5; 6]; [7; 8]]%Z.
Definition source5 : ndarray Z := vec [1; 2; 3; 4; 5]%Z.

(** Three sources of shape (4, 2); the third has the content of the
    first. *)
Definition src_a : ndarray Z := mat 4 2 [[1; 2]; [3; 4]; [5; 6]; [7; 8]]%Z.
Definition src_b : ndarray Z :=
  mat 4 2 [[7; 8]; [9; 10]; [11; 12]; [13; 14]]%Z.
Definition src_c : ndarray Z := mat 4 2 [[1; 2]; [3; 4]; [5; 6]; [7; 8]]%Z.

(** The [ParallelAlignment] of [src_a; src_b]. *)
Definition batch_ab : ParallelAlignment.t Z :=
  let stack :=
    Array3 4 2 2 [[[1; 7]; [2; 8]]; [[3; 9]; [4; 10]];
                  [[5; 11]; [6; 12]]; [[7; 13]; [8; 14]]]%Z in
  ParallelAlignment.Build
    (<[digest_of src_b:=1]> (<[digest_of src_a:=0]> ∅))
    stack stack
    (Array3 4 2 1 [[[4]; [5]]; [[6]; [7]]; [[8]; [9]]; [[10]; [11]]]%Z).

(** The [ParallelAlignment] of [src_a; src_c], two sources of one
    content. *)
Definition batch_ac : ParallelAlignment.t Z :=
  let stack :=
    Array3 4 2 2 [[[1; 1]; [2; 2]]; [[3; 3]; [4; 4]];
                  [[5; 5]; [6; 6]]; [[7; 7]; [8; 8]]]%Z in
  ParallelAlignment.Build
    (<[digest_of src_c:=1]> (<[digest_of src_a:=0]> ∅))
    stack stack
    (Array3 4 2 1 [[[1]; [2]]; [[3]; [4]]; [[5]; [6]]; [[7]; [8]]]%Z).

(** Aligned sources in which the two slices differ. *)
Definition aligned_ac : array3 Z :=
  Array3 4 2 2 [[[1; 0]; [2; 0]]; [[3; 0]; [4; 0]];
                [[5; 0]; [6; 0]]; [[7; 0]; [8; 0]]]%Z.

(** A matrix that is not square, a target of shape (1, 1), a source
    whose second axis is empty, and a 1-d source of length 2. *)
Definition R23 : array2 Z := Array2 2 3 [[1; 2; 3]; [4; 5; 6]]%Z.
Definition target11 : array2 Z := Array2 1 1 [[5]]%Z.
Definition src_empty_axis : ndarray Z := mat 4 0 [[]; []; []; []].

(** The homogeneous matrix of [Rotation(R2)] as a 2-d array, and the
    product of [M3], that matrix and [M3]. *)
Definition R2m : array2 Z := Array2 3 3 [[1; 2; 0]; [3; 4; 0]; [0; 0; 1]]%Z.
Definition M3R2M3 : ndarray Z :=
  mat 3 3 [[537; 654; 2800]; [1081; 1318; 6100]; [130; 188; 9101]]%Z.

#[export] Instance Z_semiring : ExactSemiring Z.
Proof. split; intros; simpl; lia. Qed.

End IntModel.

(** ** The scalars of numpy

    Binary64 numbers, the dtype of [np.eye] and [np.zeros], with the
    operations of the processor. [of_count] counts up from 0, which is
    exact below 2^53. The bytes of a number are those of its 64 bits,
    least significant first; NaN has the bits of numpy's [np.nan]. *)

Module Float64Model.

Definition bits64 (x : float) : Z :=
  match Prim2SF x with
  | S754_zero s => if s then 2 ^ 63 else 0
  | S754_infinity s => (if s then 2 ^ 63 else 0) + 2047 * 2 ^ 52
  | S754_nan => 2047 * 2 ^ 52 + 2 ^ 51
  | S754_finite s m e =>
      (if s then 2 ^ 63 else 0)
      + (if (Z.pos m <? 2 ^ 52) then Z.pos m
         else (e + 1075) * 2 ^ 52 + (Z.pos m - 2 ^ 52))
  end%Z.

#[export] Instance float_dtype : Dtype float := {|
  f0 := 0%float;
  f1 := 1%float;
  fadd := PrimFloat.add;
  fmul := PrimFloat.mul;
  fdiv := PrimFloat.div;
  of_count := λ n, Nat.iter n (PrimFloat.add 1) 0%float;
  tobytes := λ x, IntModel.int64_bytes (bits64 x);
|}.

(** Two points in the plane, two offsets, and the points moved by the
    first offset and by both. *)
Definition shift : list float := [0.5; 0.25]%float.
Definition shift2 : list float := [1.5; -2]%float.
Definition points64 : ndarray float :=
  A2 (Array2 2 2 [[-1.5; 2]; [3; 0.125]]%float).
Definition moved64 : ndarray float :=
  A2 (Array2 2 2 [[-1; 2.25]; [3.5; 0.375]]%float).
Definition moved_twice64 : ndarray float :=
  A2 (Array2 2 2 [[0.5; 0.25]; [5; -1.625]]%float).

(** A quarter turn. *)
Definition quarter_turn : array2 float :=
  Array2 2 2 [[0; -1]; [1; 0]]%float.

(** A point at infinity on the first axis. *)
Definition far_point : ndarray float := A1 [infinity; 1]%float.

End Float64Model.

(** * Properties *)

Section lists.
Context {A : Type}.
Implicit Types l : list A.

Lemma py_init_take l n : length l = S n → py_init l = take n l.
Proof. intros E. unfold py_init. rewrite E. f_equal. lia. Qed.

Lemma py_init_app l x : py_init (l ++ [x]) = l.
Proof.
  unfold py_init. rewrite length_app. simpl.
  replace (length l + 1 - 1) with (length l) by lia.
  by rewrite take_app_length.
Qed.

Lemma stretch_same l k : length l = k → stretch k l = l.
Proof. intros E. unfold stretch. by rewrite bool_decide_eq_true_2. Qed.

Lemma length_stretch l k :
  length l = k ∨ length l = 1 → length (stretch k l) = k.
Proof.
  unfold stretch. intros [E|E]; case_bool_decide; try done.
  destruct l as [|x [|]]; simplify_eq/=. by rewrite length_replicate.
Qed.

Lemma forallb_length_Forall (ls : list (list A)) c :
  forallb (λ r, bool_decide (length r = c)) ls = true ↔
  Forall (λ r, length r = c) ls.
Proof.
  rewrite forallb_forall, Forall_forall. split; intros E r Hr.
  - apply list_elem_of_In in Hr. apply E in Hr. by apply bool_decide_eq_true in Hr.
  - apply bool_decide_eq_true. apply E. by apply list_elem_of_In.
Qed.

End lists.

(** ** AffineTransformation *)

Section affine.
Context {F : Type} `{Dtype F}.
Implicit Types (M : array2 F) (x : ndarray F) (h : heap F).

Lemma wf2_spec M :
  wf2 M = true ↔
  length (rows M) = nrows M ∧ Forall (λ r, length r = ncols M) (rows M).
Proof.
  unfold wf2. rewrite andb_true_iff, bool_decide_eq_true.
  by rewrite forallb_length_Forall.
Qed.

(** On a matrix of shape (n+1, n+1), [m[:-1, :-1]] is the top-left block. *)
Lemma getitem_init_init_block M n :
  wf2 M = true → nrows M = S n → ncols M = S n →
  getitem_init_init (A2 M) = Ok (top_left_block n M).
Proof.
  intros [Hr Hc]%wf2_spec En Ec. unfold getitem_init_init, top_left_block.
  rewrite En, Ec. simpl. rewrite !Nat.sub_0_r.
  rewrite (py_init_take _ n) by congruence.
  do 3 f_equal. apply Forall_fmap_ext.
  eapply Forall_impl; [by apply Forall_take|].
  intros r Hlen. apply py_init_take. simpl in Hlen. congruence.
Qed.

(** On a matrix of shape (n+1, n+1), [m[-1, :-1]] is the start of the row
    of index n. *)
Lemma getitem_last_init_row M n :
  wf2 M = true → nrows M = S n → ncols M = S n →
  getitem_last_init (A2 M) = Ok (last_row_prefix n M).
Proof.
  intros [Hr Hc]%wf2_spec En Ec. unfold getitem_last_init, last_row_prefix.
  rewrite En. simpl. rewrite Nat.sub_0_r.
  destruct (rows M !! n) as [r|] eqn:Er.
  - simpl. do 2 f_equal. apply py_init_take.
    rewrite Forall_lookup in Hc. rewrite (Hc _ _ Er). done.
  - apply lookup_ge_None in Er. lia.
Qed.

(** [apply], once the matrix of the transformation is read. *)
Lemma apply_run (self : AffineTransformation.t) (m : ndarray F) x h :
  h !! AffineTransformation.homogeneous_matrix self = Some m →
  AffineTransformation.apply self x h =
    (lin ← getitem_init_init m;
     tr ← getitem_last_init m;
     y ← np_add x tr;
     r ← np_dot lin y;
     Ok (r, h)).
Proof.
  intros Hh.
  unfold AffineTransformation.apply, AffineTransformation.linear_transformation,
    AffineTransformation.translation, deref, lift, mbind, heapM_bind, result_bind.
  rewrite Hh. destruct (getitem_init_init m) as [lin|]; [|done].
  rewrite Hh. destruct (getitem_last_init m) as [tr|]; [|done].
  destruct (np_add x tr) as [y|]; [|done].
  by destruct (np_dot lin y).
Qed.

(** C1: [apply] on a transformation whose homogeneous matrix M has shape
    (n+1, n+1) is [np.dot] of the top-left n-by-n block of M with the sum
    of the points and the first n entries of the last row of M; it raises
    what the sum or the product raises, and leaves the heap as it is. *)
Theorem apply_is_block_dot_points_plus_last_row
    (self : AffineTransformation.t) M (n : nat) x h :
  h !! AffineTransformation.homogeneous_matrix self = Some (A2 M) →
  wf2 M = true → nrows M = S n → ncols M = S n →
  AffineTransformation.apply self x h =
    (y ← np_add x (last_row_prefix n M);
     r ← np_dot (top_left_block n M) y;
     Ok (r, h)).
Proof.
  intros Hh Hwf En Ec. rewrite (apply_run self (A2 M)) by done.
  by rewrite (getitem_init_init_block M n), (getitem_last_init_row M n).
Qed.

(** C2: [chain] allocates a new array holding the product of the two
    homogeneous matrices and returns a transformation on it; every array
    of the heap, those of the two operands among them, is as it was. *)
Theorem chain_is_matrix_product
    (A B : AffineTransformation.t) (a b p : ndarray F) h :
  h !! AffineTransformation.homogeneous_matrix A = Some a →
  h !! AffineTransformation.homogeneous_matrix B = Some b →
  np_dot a b = Ok p →
  ∃ (C : AffineTransformation.t) (h' : heap F),
    AffineTransformation.chain A B h = Ok (C, h') ∧
    h' !! AffineTransformation.homogeneous_matrix C = Some p ∧
    h !! AffineTransformation.homogeneous_matrix C = None ∧
    h' !! AffineTransformation.homogeneous_matrix A = Some a ∧
    h' !! AffineTransformation.homogeneous_matrix B = Some b ∧
    (∀ l c, h !! l = Some c → h' !! l = Some c).
Proof.
  intros Ha Hb Hp.
  exists (AffineTransformation.init (length h)), (h ++ [p]).
  assert (∀ l c, h !! l = Some c → (h ++ [p]) !! l = Some c) as Hold.
  { intros l c Hl. by apply lookup_app_l_Some. }
  split_and!; auto.
  - unfold AffineTransformation.chain, deref, lift, alloc, mbind, heapM_bind,
      mret, heapM_ret.
    by rewrite Ha, Hb, Hp.
  - cbn [AffineTransformation.init AffineTransformation.homogeneous_matrix].
    by rewrite lookup_app_r, Nat.sub_diag.
  - cbn [AffineTransformation.init AffineTransformation.homogeneous_matrix].
    by apply lookup_ge_None.
Qed.

(** When the product of the two matrices is not defined, [chain] raises
    and builds nothing. *)
Lemma chain_raises (A B : AffineTransformation.t) (a b : ndarray F) e h :
  h !! AffineTransformation.homogeneous_matrix A = Some a →
  h !! AffineTransformation.homogeneous_matrix B = Some b →
  np_dot a b = Raise e →
  AffineTransformation.chain A B h = Raise e.
Proof.
  intros Ha Hb Hp.
  unfold AffineTransformation.chain, deref, lift, mbind, heapM_bind.
  by rewrite Ha, Hb, Hp.
Qed.

End affine.

(** ** np.dot with the identity *)

Section identity.
Context {F : Type} `{Dtype F} `{!ExactArith F}.

Lemma dotp_unit_row (v : list F) (i s : nat) :
  dotp (unit_row i s (length v)) v =
    if bool_decide (s ≤ i) then default f0 (v !! (i - s)) else f0.
Proof.
  revert s. induction v as [|b v IH]; intros s.
  - simpl. unfold dotp. simpl. by case_bool_decide.
  - change (dotp (unit_row i s (length (b :: v))) (b :: v))
      with (fadd (fmul (if bool_decide (i = s) then f1 else f0) b)
                 (dotp (unit_row i (S s) (length v)) v)).
    rewrite (IH (S s)). simpl.
    repeat case_bool_decide; try lia; subst.
    + by rewrite fmul_1_l, fadd_0_r, Nat.sub_diag.
    + rewrite fmul_0_l, fadd_0_l.
      by replace (i - s) with (S (i - S s)) by lia.
    + by rewrite fmul_0_l, fadd_0_l.
Qed.

Lemma fmap_lookup_seq (v : list F) :
  (λ i, default f0 (v !! i)) <$> seq 0 (length v) = v.
Proof.
  apply list_eq. intros i. rewrite list_lookup_fmap.
  destruct (decide (i < length v)) as [Hi|Hi].
  - rewrite lookup_seq_lt by done. simpl.
    destruct (lookup_lt_is_Some_2 v i Hi) as [a ->]. done.
  - rewrite lookup_seq_ge, lookup_ge_None_2 by lia. done.
Qed.

Lemma rows_eye (n : nat) : rows (eye n) = (λ i, unit_row i 0 n) <$> seq 0 n.
Proof. done. Qed.

(** The identity matrix times a vector of its length. *)
Lemma dot_eye_vector (v : list F) :
  (λ r, dotp r v) <$> rows (eye (length v)) = v.
Proof.
  rewrite rows_eye, <- list_fmap_compose.
  etrans; [|apply (fmap_lookup_seq v)].
  apply list_fmap_ext. intros k i Hi. simpl.
  rewrite dotp_unit_row. rewrite bool_decide_eq_true_2 by lia.
  by rewrite Nat.sub_0_r.
Qed.

(** The identity matrix times a matrix with as many rows. *)
Lemma dot_eye_matrix (p : array2 F) :
  wf2 p = true →
  (λ r, dotp r <$> columns p) <$> rows (eye (nrows p)) = rows p.
Proof.
  intros [Hr Hc]%wf2_spec. rewrite rows_eye, <- list_fmap_compose.
  apply list_eq. intros i. rewrite list_lookup_fmap.
  destruct (decide (i < nrows p)) as [Hi|Hi].
  2: { rewrite lookup_seq_ge, lookup_ge_None_2 by lia. done. }
  rewrite lookup_seq_lt by done. simpl.
  destruct (lookup_lt_is_Some_2 (rows p) i) as [r Er]; [lia|].
  rewrite Er. f_equal.
  assert (length r = ncols p) as Hlen.
  { rewrite Forall_lookup in Hc. by apply (Hc i). }
  unfold columns. rewrite <- list_fmap_compose.
  etrans; [|apply (fmap_lookup_seq r)]. rewrite Hlen.
  apply list_fmap_ext. intros j k Hk. simpl.
  pose proof (dotp_unit_row ((λ r0 : list F, default f0 (r0 !! k)) <$> rows p) i 0)
    as E.
  rewrite length_fmap, Hr in E. rewrite E.
  rewrite bool_decide_eq_true_2 by lia.
  by rewrite Nat.sub_0_r, list_lookup_fmap, Er.
Qed.

(** [np.dot] of the identity of size [n] with an array whose first axis
    has length [n] is that array. *)
Lemma np_dot_eye_l (n : nat) (y : ndarray F) :
  wf y = true → shape y !! 0 = Some n →
  np_dot (A2 (eye n)) y = Ok y.
Proof.
  intros Hwf Hn. destruct y as [a|v|p]; simplify_eq/=.
  - rewrite bool_decide_eq_true_2 by done. by rewrite dot_eye_vector.
  - rewrite bool_decide_eq_true_2 by done. rewrite dot_eye_matrix by done.
    by destruct p.
Qed.

(** With an array whose first axis has another length, it raises. *)
Lemma np_dot_eye_l_mismatch (n k : nat) (y : ndarray F) :
  shape y !! 0 = Some k → k ≠ n →
  np_dot (A2 (eye n)) y = Raise ValueError.
Proof.
  intros Hk Hne. destruct y as [a|v|p]; simplify_eq/=;
    by rewrite bool_decide_eq_false_2.
Qed.

End identity.

(** ** Translation *)

Section translation.
Context {F : Type} `{Dtype F}.
Implicit Types (t : list F) (x y : ndarray F) (h : heap F).

Lemma py_init_app_single {A} (l1 l2 : list A) :
  length l2 = 1 → py_init (l1 ++ l2) = l1.
Proof. destruct l2 as [|a [|]]; intros; simplify_eq/=. apply py_init_app. Qed.

Lemma length_unit_row i s n : length (unit_row (F:=F) i s n) = n.
Proof. unfold unit_row. by rewrite length_fmap, length_seq. Qed.

Lemma take_unit_row i s n : take n (unit_row (F:=F) i s (S n)) = unit_row i s n.
Proof. unfold unit_row. rewrite <- fmap_take, take_seq. f_equal. f_equal. lia. Qed.

Lemma take_rows_eye n :
  take n (rows (eye (F:=F) (S n))) = (λ i, unit_row i 0 (S n)) <$> seq 0 n.
Proof.
  rewrite rows_eye, <- fmap_take, take_seq. f_equal. f_equal. lia.
Qed.

Lemma translation_setitem t :
  setitem_last_init (eye (length t + 1)) t = Ok (translation_matrix t).
Proof.
  unfold setitem_last_init, translation_matrix.
  change (nrows (eye (length t + 1))) with (length t + 1).
  change (ncols (eye (length t + 1))) with (length t + 1).
  rewrite bool_decide_eq_false_2 by lia.
  unfold bto. rewrite Nat.add_sub, bool_decide_eq_true_2 by done. simpl.
  do 2 f_equal. apply list_alter_ext; [|done]. intros old _.
  by rewrite stretch_same.
Qed.

Lemma translation_init_run t h :
  Translation.init t h =
    Ok (AffineTransformation.init (length h), h ++ [A2 (translation_matrix t)]).
Proof.
  unfold Translation.init, lift, alloc, mbind, heapM_bind.
  by rewrite translation_setitem.
Qed.

(** Its linear part is the identity. *)
Lemma translation_linear_part t :
  getitem_init_init (A2 (translation_matrix t)) = Ok (A2 (eye (length t))).
Proof.
  unfold getitem_init_init, translation_matrix. cbn [nrows ncols rows].
  rewrite !Nat.add_sub. unfold eye at 2. do 3 f_equal.
  change (_ <$> seq 0 (length t)) with (rows (eye (length t))).
  rewrite (py_init_take _ (length t)).
  2: { rewrite length_alter, rows_eye, length_fmap, length_seq. lia. }
  rewrite take_alter_ge by done.
  replace (length t + 1) with (S (length t)) by lia.
  rewrite take_rows_eye, rows_eye, <- list_fmap_compose.
  apply list_fmap_ext. intros k i Hi. simpl.
  rewrite (py_init_take _ (length t)) by apply length_unit_row.
  apply take_unit_row.
Qed.

(** Its translation is the offset. *)
Lemma translation_translation t :
  getitem_last_init (A2 (translation_matrix t)) = Ok (A1 t).
Proof.
  unfold getitem_last_init, translation_matrix. cbn [nrows ncols rows].
  rewrite bool_decide_eq_false_2 by lia. rewrite Nat.add_sub.
  rewrite list_lookup_alter_eq, rows_eye, list_lookup_fmap.
  rewrite lookup_seq_lt by lia. simpl. do 2 f_equal.
  apply py_init_app_single.
  rewrite length_drop, length_unit_row. lia.
Qed.

Lemma bdim_Ok n m k :
  bdim n m = Ok k → (n = k ∨ n = 1) ∧ (m = k ∨ m = 1).
Proof.
  unfold bdim. repeat case_bool_decide; intros; simplify_eq; lia.
Qed.

Lemma length_add_vec k (u v : list F) :
  length u = k ∨ length u = 1 → length v = k ∨ length v = 1 →
  length (add_vec k u v) = k.
Proof.
  intros Hu Hv. unfold add_vec.
  rewrite length_zip_with, !length_stretch by done. lia.
Qed.

(** The sum of a well-formed array and a vector is well-formed. *)
Lemma np_add_vector_wf x t y :
  wf x = true → np_add x (A1 t) = Ok y → wf y = true.
Proof.
  intros Hwf Hy. destruct x as [a|u|m]; simpl in Hy.
  - by simplify_eq.
  - destruct (bdim (length u) (length t)); by simplify_eq/=.
  - destruct (bdim (ncols m) (length t)) as [k|] eqn:Ek; simplify_eq/=.
    apply bdim_Ok in Ek as [Hm Ht]. apply wf2_spec in Hwf as [Hr Hc].
    apply wf2_spec. simpl. split; [by rewrite length_fmap|].
    apply Forall_fmap. eapply Forall_impl; [exact Hc|].
    intros r Hlen. simpl. apply length_add_vec; [|done]. by rewrite Hlen.
Qed.

End translation.

Section factories.
Context {F : Type} `{Dtype F}.
Implicit Types (t : list F) (x y : ndarray F) (h : heap F) (R : array2 F).

(** When the first axis of the sum has another length than the offset,
    as for n_landmarks points in rows with n_landmarks ≠ n, the product
    with the linear part raises. *)
Lemma translation_apply_mismatch t x y k h :
  np_add x (A1 t) = Ok y →
  shape y !! 0 = Some k → k ≠ length t →
  (T ← Translation.init t; AffineTransformation.apply T x) h = Raise ValueError.
Proof.
  intros Hy Hk Hne.
  unfold mbind at 1. unfold heapM_bind. rewrite translation_init_run.
  rewrite (apply_run _ (A2 (translation_matrix t))).
  2: { cbn [AffineTransformation.init AffineTransformation.homogeneous_matrix].
       by rewrite lookup_app_r, Nat.sub_diag. }
  rewrite translation_linear_part, translation_translation.
  unfold mbind, result_bind.
  rewrite Hy. by rewrite (np_dot_eye_l_mismatch _ k).
Qed.

Lemma fmap_py_init_zip (olds news : list (list F)) n :
  length olds = length news →
  Forall (λ o, length o = S n) olds →
  Forall (λ r, length r = n) news →
  py_init <$> zip_with (λ old new, stretch n new ++ drop n old) olds news
  = news.
Proof.
  revert news. induction olds as [|o olds IH]; intros [|r news] Hl Ho Hn;
    simplify_eq/=; [done|].
  apply Forall_cons in Ho as [Ho Hos]. apply Forall_cons in Hn as [Hr Hrs].
  rewrite IH by done. f_equal.
  rewrite stretch_same by done. apply py_init_app_single.
  rewrite length_drop. lia.
Qed.

(** The matrix [Rotation] builds: writing a square [R] into the top-left
    block of the identity and reading the block back gives [R]. *)
Lemma rotation_block_roundtrip R :
  wf2 R = true → ncols R = nrows R →
  ∃ m, setitem_init_init (eye (nrows R + 1)) R = Ok m
       ∧ getitem_init_init (A2 m) = Ok (A2 R).
Proof.
  intros [Hr Hc]%wf2_spec Hsq. eexists. split.
  - unfold setitem_init_init, bto.
    change (nrows (eye (nrows R + 1))) with (nrows R + 1).
    change (ncols (eye (nrows R + 1))) with (nrows R + 1).
    rewrite Nat.add_sub, Hsq, !bool_decide_eq_true_2 by done.
    reflexivity.
  - unfold getitem_init_init. cbn [nrows ncols rows].
    rewrite !Nat.add_sub. rewrite stretch_same by done.
    rewrite py_init_app_single.
    2: { rewrite length_drop, rows_eye, length_fmap, length_seq. lia. }
    rewrite (fmap_py_init_zip _ _ (nrows R)).
    + destruct R; simpl in *. by subst.
    + unfold py_init.
      rewrite length_take, rows_eye, length_fmap, length_seq, Hr. lia.
    + replace (nrows R + 1) with (S (nrows R)) by lia.
      rewrite (py_init_take _ (nrows R)), take_rows_eye.
      2: { by rewrite rows_eye, length_fmap, length_seq. }
      apply Forall_fmap, Forall_forall. intros i _. apply length_unit_row.
    + by rewrite <- Hsq.
Qed.

(** C8: for a square 2-d [R], the linear transformation of [Rotation(R)]
    is [R]. *)
Theorem rotation_linear_transformation_roundtrip R h :
  wf2 R = true → ncols R = nrows R →
  ∃ h', (T ← Rotation.init R; AffineTransformation.linear_transformation T) h
        = Ok (A2 R, h').
Proof.
  intros Hwf Hsq.
  destruct (rotation_block_roundtrip R Hwf Hsq) as (m & Hset & Hget).
  exists (h ++ [A2 m]).
  unfold Rotation.init, AffineTransformation.linear_transformation,
    deref, lift, alloc, mbind, heapM_bind, mret, heapM_ret.
  rewrite Hset.
  cbn [AffineTransformation.init AffineTransformation.homogeneous_matrix].
  rewrite lookup_app_r, Nat.sub_diag by done. cbn [lookup list_lookup].
  by rewrite Hget.
Qed.

End factories.

(** ** Alignment *)

Section alignment.
Context {F : Type}.
Implicit Types source target : ndarray F.

(** C7: a source that is not 2-d, whose shape does not unpack into
    (n_landmarks, n_dim), makes the constructor raise [AlignmentError],
    whatever the target. *)
Theorem alignment_source_not_2d source target :
  length (shape source) ≠ 2 →
  Alignment.init source target = Raise AlignmentError.
Proof.
  intros Hrank. unfold Alignment.init.
  destruct (shape source) as [|l [|d [|k sh]]]; simpl in *; done.
Qed.

(** The constructor never reads the shape of the target: with a 2-d
    source whose second axis is not empty it succeeds, and stores the
    target it was given. *)
Lemma alignment_init_any_target source target (l d : nat) :
  shape source = [l; d] → d ≠ 0 →
  Alignment.init source target = Ok (Alignment.Build source source l d target).
Proof.
  intros Hs Hd. unfold Alignment.init. rewrite Hs.
  by rewrite bool_decide_eq_false_2.
Qed.

(** What the [assert] checks is [self.n_dim]: a source of shape (l, 0)
    fails it, also with a target of that shape. *)
Lemma alignment_init_assertion source target (l : nat) :
  shape source = [l; 0] →
  Alignment.init source target = Raise AssertionError.
Proof. intros Hs. unfold Alignment.init. by rewrite Hs. Qed.

End alignment.

(** ** ParallelAlignment: the lookup *)

Section lookup.
Context {F : Type} `{Dtype F} `{Digest}.
Implicit Types (t T : array3 F) (lk : gmap string nat) (s q : ndarray F).

Lemma setitem_slice_Ok t i s t' :
  setitem_slice t i s = Ok t' → shape3 t' = shape3 t ∧ i < dim2 t.
Proof.
  unfold setitem_slice. case_bool_decide; [|done].
  destruct (broadcast_to s (dim0 t) (dim1 t)); intros; by simplify_eq/=.
Qed.

(** The lookup and the stack after the loop, from position [i] on: the
    stack keeps its shape, every source has a hash, a hash that no source
    has keeps its entry, and the hash of a source that no later source
    shares is mapped to the position of that source. *)
Lemma stack_from_lookup (D : nat) (rest : list (ndarray F)) :
  ∀ i lk t lk' t',
    ParallelAlignment.stack_from D i rest (lk, t) = Ok (lk', t') →
    shape3 t' = shape3 t
    ∧ (rest ≠ [] → i + length rest ≤ dim2 t)
    ∧ Forall (λ s, ∃ k, _numpy_hash s = Ok k) rest
    ∧ (∀ k, Forall (λ s, _numpy_hash s ≠ Ok k) rest → lk' !! k = lk !! k)
    ∧ (∀ j s k,
         rest !! j = Some s → _numpy_hash s = Ok k →
         (∀ j' s', j < j' → rest !! j' = Some s' → _numpy_hash s' ≠ Ok k) →
         lk' !! k = Some (i + j)).
Proof.
  induction rest as [|source rest IH]; intros i lk t lk' t' Hrun.
  - simpl in Hrun. simplify_eq. split_and!; try done.
  - simpl in Hrun. case_bool_decide; [done|].
    destruct (setitem_slice t i source) as [stack|] eqn:Eset; [|done].
    destruct (_numpy_hash source) as [h|] eqn:Eh; [|done].
    simpl in Hrun. apply setitem_slice_Ok in Eset as [Esh Hi].
    apply IH in Hrun as (Hsh & Hlen & Hall & Hmiss & Hhit).
    assert (dim2 stack = dim2 t) as Ed by (by injection Esh).
    split_and!.
    + by rewrite Hsh.
    + intros _. destruct rest; simpl in *; [lia|].
      rewrite Ed in Hlen. specialize (Hlen ltac:(done)). lia.
    + constructor; eauto.
    + intros k [Hk Hks]%Forall_cons. rewrite Hmiss by done.
      rewrite lookup_insert_ne; [done|]. congruence.
    + intros [|j] s k Hs Hk Hlater.
      * assert (source = s) as <- by (by injection Hs).
        assert (h = k) as <- by congruence.
        rewrite Hmiss.
        { rewrite Nat.add_0_r. apply lookup_insert_eq. }
        apply Forall_lookup. intros j' s' Hs'.
        by apply (Hlater (S j')); [lia|].
      * rewrite (Hhit j s k); [f_equal; lia|done..|].
        intros j' s' Hlt Hs'. by apply (Hlater (S j')); [lia|].
Qed.

(** What a successful construction from a list of sources leaves in the
    lookup and in the shape of the stack. *)
Lemma init_lookup (srcs : list (ndarray F)) target
    (self : ParallelAlignment.t F) :
  ParallelAlignment.init (ParallelAlignment.Several srcs) target = Ok self →
  dim2 (ParallelAlignment.aligned_sources self) = length srcs
  ∧ Forall (λ s, ∃ k, _numpy_hash s = Ok k) srcs
  ∧ (∀ k, Forall (λ s, _numpy_hash s ≠ Ok k) srcs →
       ParallelAlignment._lookup self !! k = None)
  ∧ (∀ j s k,
       srcs !! j = Some s → _numpy_hash s = Ok k →
       (∀ j' s', j < j' → srcs !! j' = Some s' → _numpy_hash s' ≠ Ok k) →
       ParallelAlignment._lookup self !! k = Some j).
Proof.
  unfold ParallelAlignment.init. intros Hinit.
  destruct (srcs !! 0) as [s0|]; [|done]. simpl in Hinit.
  destruct (shape_at s0 0) as [L|]; [|done]. simpl in Hinit.
  destruct (shape_at s0 1) as [D|]; [|done]. simpl in Hinit.
  destruct (ParallelAlignment.stack_from D 0 srcs (∅, zeros3 L D (length srcs)))
    as [[lk t]|] eqn:Erun; [|done].
  apply stack_from_lookup in Erun as (Hsh & _ & Hall & Hmiss & Hhit).
  assert (dim2 t = length srcs) as Ed by (by injection Hsh).
  assert (ParallelAlignment._lookup self = lk
          ∧ ParallelAlignment.aligned_sources self = t) as [-> ->].
  { simpl in Hinit. destruct target; [case_bool_decide|]; by simplify_eq. }
  split_and!; try done.
Qed.

End lookup.

(** ** ParallelAlignment: the stack and the target *)

Section tabulate.
Context {A : Type}.

Lemma tabulate_ext L D (f g : nat → nat → A) :
  (∀ l d, l < L → d < D → f l d = g l d) → tabulate L D f = tabulate L D g.
Proof.
  intros E. unfold tabulate. apply list_fmap_ext. intros i l Hl.
  apply lookup_seq in Hl as [-> Hl]. apply list_fmap_ext. intros j d Hd.
  apply lookup_seq in Hd as [-> Hd]. by apply E.
Qed.

Lemma fmap_tabulate {B} L D (f : nat → nat → A) (g : A → B) :
  fmap (fmap (M:=list) g) (tabulate L D f) = tabulate L D (λ l d, g (f l d)).
Proof.
  unfold tabulate. rewrite <- list_fmap_compose. apply list_fmap_ext.
  intros i l _. simpl. by rewrite <- list_fmap_compose.
Qed.

Lemma zip_with_tabulate {B C} L D (f : nat → nat → A) (g : nat → nat → B)
    (h : A → B → C) :
  zip_with (zip_with h) (tabulate L D f) (tabulate L D g)
  = tabulate L D (λ l d, h (f l d) (g l d)).
Proof.
  unfold tabulate. rewrite zip_with_fmap_l, zip_with_fmap_r, zip_with_diag.
  apply list_fmap_ext. intros i l _. simpl.
  by rewrite zip_with_fmap_l, zip_with_fmap_r, zip_with_diag.
Qed.

Lemma replicate_tabulate L D (x : A) :
  replicate L (replicate D x) = tabulate L D (λ _ _, x).
Proof.
  unfold tabulate. symmetry.
  rewrite <- (length_seq L 0) at 2. apply const_fmap. intros i l _.
  rewrite <- (length_seq D 0) at 2. by apply const_fmap.
Qed.

End tabulate.

Section stack.
Context {F : Type} `{Dtype F} `{Digest}.
Implicit Types (s : ndarray F) (m : array2 F) (lk : gmap string nat).

Lemma has_shape_inv L D s :
  has_shape L D s → ∃ m, s = A2 m ∧ wf2 m = true ∧ nrows m = L ∧ ncols m = D.
Proof.
  intros [Hs Hwf]. destruct s as [a|v|m]; simplify_eq/=. by exists m.
Qed.

Lemma rows_tabulate m :
  wf2 m = true → rows m = tabulate (nrows m) (ncols m) (entry (A2 m)).
Proof.
  intros [Hr Hc]%wf2_spec. unfold tabulate. apply list_eq. intros i.
  rewrite list_lookup_fmap.
  destruct (decide (i < nrows m)) as [Hi|Hi].
  2: { rewrite lookup_seq_ge, lookup_ge_None_2 by lia. done. }
  rewrite lookup_seq_lt by done. simpl.
  destruct (lookup_lt_is_Some_2 (rows m) i) as [r Er]; [lia|].
  rewrite Er. f_equal.
  assert (length r = ncols m) as <-.
  { rewrite Forall_lookup in Hc. by apply (Hc i). }
  rewrite <- (fmap_lookup_seq r) at 1.
  by apply list_fmap_ext.
Qed.

Lemma broadcast_to_same m :
  wf2 m = true → broadcast_to (A2 m) (nrows m) (ncols m) = Ok (rows m).
Proof.
  intros [Hr Hc]%wf2_spec. unfold broadcast_to, bto.
  rewrite !bool_decide_eq_true_2 by done. simpl. f_equal.
  assert (stretch (ncols m) <$> rows m = rows m) as ->.
  { rewrite <- (list_fmap_id (rows m)) at 2. apply Forall_fmap_ext.
    eapply Forall_impl; [exact Hc|]. intros r Hlen. by apply stretch_same. }
  by apply stretch_same.
Qed.

(** Writing a source of the shape of the slice at position [i]. *)
Lemma setitem_slice_tabulate L D N (f : nat → nat → list F) i s :
  has_shape L D s → i < N →
  setitem_slice (Array3 L D N (tabulate L D f)) i s
  = Ok (Array3 L D N (tabulate L D (λ l d, <[i:=entry s l d]> (f l d)))).
Proof.
  intros (m & -> & Hwf & <- & <-)%has_shape_inv Hi.
  unfold setitem_slice. cbn [dim0 dim1 dim2 cells].
  rewrite bool_decide_eq_true_2 by done.
  rewrite broadcast_to_same by done. simpl. f_equal. f_equal.
  rewrite (rows_tabulate m) at 1 by done.
  by rewrite zip_with_tabulate.
Qed.

Lemma numpy_hash_2d m :
  _numpy_hash (A2 m) = Ok (sha1_hexdigest (flat_map tobytes (concat (rows m)))).
Proof. done. Qed.

(** The loop over well-shaped sources succeeds, and overwrites every cell
    of the stack from position [i] on with the elements of the sources. *)
Lemma stack_from_tabulate L D N (rest : list (ndarray F)) :
  D ≠ 0 → Forall (has_shape L D) rest →
  ∀ i lk (f : nat → nat → list F),
    i + length rest ≤ N →
    ∃ lk',
      ParallelAlignment.stack_from D i rest (lk, Array3 L D N (tabulate L D f))
      = Ok (lk', Array3 L D N
                   (tabulate L D
                      (λ l d, overwrite i ((λ s, entry s l d) <$> rest) (f l d)))).
Proof.
  intros HD. induction 1 as [|s rest Hs Hrest IH]; intros i lk f Hlen.
  - by exists lk.
  - simpl in Hlen. cbn [ParallelAlignment.stack_from].
    rewrite bool_decide_eq_false_2 by done. cbn [snd fst].
    rewrite (setitem_slice_tabulate L D N f i s) by (done || lia).
    destruct (has_shape_inv _ _ _ Hs) as (m & -> & _).
    rewrite numpy_hash_2d. cbn [mbind result_bind].
    destruct (IH (S i) (<[sha1_hexdigest (flat_map tobytes (concat (rows m))):=i]> lk)
                (λ l d, <[i:=entry (A2 m) l d]> (f l d))) as [lk' ->]; [lia|].
    by exists lk'.
Qed.

Lemma overwrite_app (es pre : list F) (x : F) :
  overwrite (length pre) es (pre ++ replicate (length es) x) = pre ++ es.
Proof.
  revert pre. induction es as [|e es IH]; intros pre.
  - done.
  - cbn [overwrite length replicate].
    rewrite (insert_app_r_alt pre _ (length pre)) by done.
    rewrite Nat.sub_diag. cbn [insert list_insert].
    rewrite (cons_middle e pre), app_assoc.
    replace (S (length pre)) with (length (pre ++ [e]))
      by (rewrite length_app; simpl; lia).
    by rewrite IH, <- app_assoc.
Qed.

(** Construction from well-shaped sources: the stack holds at (l, d) the
    elements the sources have there, in the order of the list. *)
Lemma init_well_shaped L D (srcs : list (ndarray F)) target :
  srcs ≠ [] → D ≠ 0 → Forall (has_shape L D) srcs →
  let stack :=
    Array3 L D (length srcs) (tabulate L D (λ l d, (λ s, entry s l d) <$> srcs)) in
  ∃ lk,
    ParallelAlignment.init (ParallelAlignment.Several srcs) target
    = Ok (ParallelAlignment.Build lk stack stack
            match target with
            | None => newaxis (mean2 stack)
            | Some tg => newaxis tg
            end).
Proof.
  intros Hne HD Hall stack. unfold ParallelAlignment.init.
  destruct srcs as [|s0 srcs']; [done|]. set (srcs := s0 :: srcs') in *.
  cbn [lookup list_lookup srcs mbind result_bind].
  assert (has_shape L D s0) as Hs0 by (by apply Forall_cons in Hall as [? _]).
  destruct (has_shape_inv _ _ _ Hs0) as (m & -> & _ & <- & <-).
  unfold shape_at. cbn [shape lookup list_lookup mbind result_bind].
  unfold zeros3. rewrite replicate_tabulate.
  destruct (stack_from_tabulate (nrows m) (ncols m) (length srcs) srcs HD Hall 0 ∅
              (λ _ _, replicate (length srcs) f0)) as [lk Hrun]; [done|].
  rewrite Hrun. cbn [fst snd].
  assert (tabulate (nrows m) (ncols m)
            (λ l d, overwrite 0 ((λ s, entry s l d) <$> srcs)
                      (replicate (length srcs) f0))
          = tabulate (nrows m) (ncols m) (λ l d, (λ s, entry s l d) <$> srcs))
    as ->.
  { apply tabulate_ext. intros l d _ _.
    pose proof (overwrite_app ((λ s, entry s l d) <$> srcs) [] f0) as E.
    by rewrite length_fmap in E. }
  exists lk. destruct target; [|done].
  by rewrite bool_decide_eq_false_2.
Qed.

End stack.

Section parallel.
Context {F : Type} `{Dtype F} `{Digest}.
Implicit Types (s q a b : ndarray F) (T : array3 F) (self : ParallelAlignment.t F).


(** With sources whose second axis is empty the [assert] of the loop
    fails. *)
Lemma init_empty_axis L (srcs : list (ndarray F)) target :
  srcs ≠ [] → Forall (has_shape L 0) srcs →
  ParallelAlignment.init (ParallelAlignment.Several srcs) target
  = Raise AssertionError.
Proof.
  intros Hne Hall. destruct srcs as [|s0 srcs]; [done|].
  apply Forall_cons in Hall as [(m & -> & _ & Hl & Hd)%has_shape_inv _].
  unfold ParallelAlignment.init, shape_at.
  cbn [lookup list_lookup shape mbind result_bind]. by rewrite Hd.
Qed.


(** C9: a bare array is wrapped in a list of one element, so that the
    construction from a bare array and the construction from the list that
    holds only it have one result, the same object or the same exception;
    for a well-formed 2-d array of shape (L, D) with D not 0 the result is
    an object, of one source, L landmarks and D dimensions. *)
Theorem bare_array_is_singleton_list a (target : option (array2 F)) :
  ParallelAlignment.init (ParallelAlignment.Bare a) target
  = ParallelAlignment.init (ParallelAlignment.Several [a]) target
  ∧ ∀ L D,
      has_shape L D a → D ≠ 0 →
      ∃ self,
        ParallelAlignment.init (ParallelAlignment.Bare a) target = Ok self
        ∧ ParallelAlignment.init (ParallelAlignment.Several [a]) target = Ok self
        ∧ ParallelAlignment.n_sources self = 1
        ∧ ParallelAlignment.n_landmarks self = L
        ∧ ParallelAlignment.n_dimensions self = D.
Proof.
  assert (ParallelAlignment.init (ParallelAlignment.Bare a) target
          = ParallelAlignment.init (ParallelAlignment.Several [a]) target) as E.
  { reflexivity. }
  split; [exact E|]. intros L D Ha HD. rewrite E.
  destruct (init_well_shaped L D [a] target) as [lk Hinit];
    [done|done|by constructor|].
  cbv zeta in Hinit. rewrite Hinit. eexists. split_and!; reflexivity.
Qed.

Lemma aligned_version_hit self q k j :
  _numpy_hash q = Ok k → ParallelAlignment._lookup self !! k = Some j →
  ParallelAlignment.aligned_version_of_source self q
  = getitem_slice (ParallelAlignment.aligned_sources self) j.
Proof.
  intros Hq Hk. unfold ParallelAlignment.aligned_version_of_source.
  rewrite Hq. cbn [mbind result_bind]. by rewrite Hk.
Qed.

Lemma aligned_version_miss self q k :
  _numpy_hash q = Ok k → ParallelAlignment._lookup self !! k = None →
  ParallelAlignment.aligned_version_of_source self q = Raise KeyError.
Proof.
  intros Hq Hk. unfold ParallelAlignment.aligned_version_of_source.
  rewrite Hq. cbn [mbind result_bind]. by rewrite Hk.
Qed.

Lemma numpy_hash_view q s :
  view_uint8 q = view_uint8 s → _numpy_hash q = _numpy_hash s.
Proof. unfold _numpy_hash. by intros ->. Qed.

Lemma getitem_slice_Ok T i :
  i < dim2 T → ∃ r, getitem_slice T i = Ok r.
Proof.
  intros Hi. unfold getitem_slice. rewrite bool_decide_eq_true_2 by done. eauto.
Qed.

(** C4, as the code has it: in a [ParallelAlignment] built from the list
    [srcs], whatever [aligned_sources] holds by now, an array with the
    bytes of the source at position [i] gets the slice of [aligned_sources]
    at [i], provided no later source of the list has the content hash of
    that source; and an array whose content hash no source has makes the
    lookup raise [KeyError]. *)
Theorem aligned_version_of_last_source_with_hash
    (srcs : list (ndarray F)) target self T q :
  ParallelAlignment.init (ParallelAlignment.Several srcs) target = Ok self →
  shape3 T = shape3 (ParallelAlignment.aligned_sources self) →
  (∀ i s,
     srcs !! i = Some s →
     view_uint8 q = view_uint8 s →
     (∀ j s', i < j → srcs !! j = Some s' → _numpy_hash s' ≠ _numpy_hash s) →
     ∃ r, getitem_slice T i = Ok r
          ∧ ParallelAlignment.aligned_version_of_source
              (set_aligned_sources self T) q = Ok r)
  ∧ (∀ k,
       _numpy_hash q = Ok k →
       Forall (λ s, _numpy_hash s ≠ Ok k) srcs →
       ParallelAlignment.aligned_version_of_source
         (set_aligned_sources self T) q = Raise KeyError).
Proof.
  intros Hinit HT.
  apply init_lookup in Hinit as (Hdim & Hall & Hmiss & Hhit).
  assert (dim2 T = length srcs) as HdT.
  { rewrite <- Hdim. by injection HT. }
  split.
  - intros i s Hs Hview Hlast.
    rewrite Forall_lookup in Hall. destruct (Hall i s Hs) as [k Hk].
    destruct (getitem_slice_Ok T i) as [r Hr].
    { rewrite HdT. by eapply lookup_lt_Some. }
    exists r. split; [done|]. rewrite <- Hr.
    apply (aligned_version_hit (set_aligned_sources self T) q k i).
    + by rewrite (numpy_hash_view q s).
    + cbn [set_aligned_sources ParallelAlignment._lookup].
      apply (Hhit i s k Hs Hk). intros j s' Hlt Hs'. rewrite <- Hk.
      by apply (Hlast j).
  - intros k Hq Hnone. apply (aligned_version_miss _ _ k Hq).
    cbn [set_aligned_sources ParallelAlignment._lookup]. by apply Hmiss.
Qed.

(** C10: when the sources at two positions i < j of a list of well-shaped
    sources have the same bytes, and no source after j has their content
    hash, construction succeeds, the lookup maps that hash to j, and
    [aligned_version_of_source] of either returns the slice at j. *)
Theorem duplicate_content_maps_to_later_index
    L D (srcs : list (ndarray F)) target (i j : nat) a b :
  Forall (has_shape L D) srcs → D ≠ 0 →
  i < j → srcs !! i = Some a → srcs !! j = Some b →
  view_uint8 a = view_uint8 b →
  (∀ k s, j < k → srcs !! k = Some s → _numpy_hash s ≠ _numpy_hash b) →
  ∃ self hk r,
    ParallelAlignment.init (ParallelAlignment.Several srcs) target = Ok self
    ∧ _numpy_hash a = Ok hk
    ∧ ParallelAlignment._lookup self !! hk = Some j
    ∧ getitem_slice (ParallelAlignment.aligned_sources self) j = Ok r
    ∧ ParallelAlignment.aligned_version_of_source self a = Ok r
    ∧ ParallelAlignment.aligned_version_of_source self b = Ok r.
Proof.
  intros Hall HD Hij Ha Hb Hview Hlast.
  assert (srcs ≠ []) as Hne by (by intros ->).
  destruct (init_well_shaped L D srcs target Hne HD Hall) as [lk Hinit].
  cbv zeta in Hinit. revert Hinit.
  generalize (ParallelAlignment.Build lk
    (Array3 L D (length srcs) (tabulate L D (λ l d, (λ s, entry s l d) <$> srcs)))
    (Array3 L D (length srcs) (tabulate L D (λ l d, (λ s, entry s l d) <$> srcs)))
    match target with
    | Some tg => newaxis tg
    | None => newaxis (mean2 (Array3 L D (length srcs)
                (tabulate L D (λ l d, (λ s, entry s l d) <$> srcs))))
    end).
  intros self Hinit.
  pose proof (init_lookup _ _ _ Hinit) as (Hdim & Hhash & _ & Hhit).
  rewrite Forall_lookup in Hhash. destruct (Hhash j b Hb) as [hk Hk].
  assert (_numpy_hash a = Ok hk) as Hka by (by rewrite (numpy_hash_view a b)).
  destruct (getitem_slice_Ok (ParallelAlignment.aligned_sources self) j)
    as [r Hr].
  { rewrite Hdim. by eapply lookup_lt_Some. }
  assert (ParallelAlignment._lookup self !! hk = Some j) as Hlk.
  { apply (Hhit j b hk Hb Hk). intros k s Hlt Hs. rewrite <- Hk.
    by apply (Hlast k). }
  exists self, hk, r. split_and!; [done..| |].
  - rewrite <- Hr. by apply (aligned_version_hit _ _ hk).
  - rewrite <- Hr. by apply (aligned_version_hit _ _ hk).
Qed.

End parallel.

(** * The properties on the integer model *)

Section examples.
Import IntModel.
Local Open Scope Z_scope.

(** [apply] reads the translation in the last row (5, 6), not in the last
    column (100, 200). *)
Lemma apply_M3 :
  ([A2 M3] : list (ndarray Z)) !! 0%nat = Some (A2 M3)
  ∧ wf2 M3 = true ∧ nrows M3 = 3%nat ∧ ncols M3 = 3%nat
  ∧ AffineTransformation.apply (AffineTransformation.init 0) (vec [1; 1]) [A2 M3]
    = Ok (vec [20; 46], [A2 M3]).
Proof.
  split_and!; [reflexivity..|].
  etrans.
  - apply (apply_is_block_dot_points_plus_last_row
             (AffineTransformation.init 0) M3 2 (vec [1; 1]) [A2 M3]);
      reflexivity.
  - reflexivity.
Defined.

(** [chain] of the transformations on [M3] and on the matrix of
    [Rotation(R2)]. *)
Lemma chain_M3 :
  ([A2 M3; R2h] : list (ndarray Z)) !! 0%nat = Some (A2 M3)
  ∧ ([A2 M3; R2h] : list (ndarray Z)) !! 1%nat = Some R2h
  ∧ np_dot (A2 M3) R2h = Ok M3R2h
  ∧ ∃ (C : AffineTransformation.t) (h' : list (ndarray Z)),
      AffineTransformation.chain
        (AffineTransformation.init 0) (AffineTransformation.init 1) [A2 M3; R2h]
      = Ok (C, h')
      ∧ h' !! AffineTransformation.homogeneous_matrix C = Some M3R2h
      ∧ ([A2 M3; R2h] : list (ndarray Z)) !! AffineTransformation.homogeneous_matrix C
        = None
      ∧ h' !! 0%nat = Some (A2 M3)
      ∧ h' !! 1%nat = Some R2h
      ∧ (∀ l c, ([A2 M3; R2h] : list (ndarray Z)) !! l = Some c → h' !! l = Some c).
Proof.
  split_and!; [reflexivity..|].
  apply (chain_is_matrix_product
           (AffineTransformation.init 0) (AffineTransformation.init 1)
           (A2 M3) R2h M3R2h [A2 M3; R2h]);
    reflexivity.
Defined.

(** [Rotation(R2).linear_transformation] *)
Lemma rotation_R2 :
  wf2 R2 = true ∧ ncols R2 = nrows R2
  ∧ ∃ h', (T ← Rotation.init R2; AffineTransformation.linear_transformation T) []
          = Ok (A2 R2, h').
Proof.
  split_and!; [reflexivity..|].
  apply (rotation_linear_transformation_roundtrip R2 []); reflexivity.
Defined.

(** C6: with a source of shape (3, 2) and a target of shape (4, 2) the
    constructor returns an [Alignment] holding both, where the spec has
    the construction fail. *)
Theorem alignment_accepts_mismatched_target :
  shape source32 ≠ shape target42
  ∧ Alignment.init source32 target42
    = Ok (Alignment.Build source32 source32 3 2 target42).
Proof. split; [discriminate|reflexivity]. Qed.

(** An [Alignment] of a source of shape (5,). *)
Lemma alignment_source_1d :
  length (shape source5) ≠ 2%nat
  ∧ Alignment.init source5 source5 = Raise AlignmentError.
Proof.
  split; [discriminate|].
  apply (alignment_source_not_2d source5 source5). discriminate.
Defined.

(** The bare array [src_a] and the list [[src_a]]. *)
Lemma bare_src_a :
  has_shape 4 2 src_a ∧ 2%nat ≠ 0%nat
  ∧ ∃ self,
      ParallelAlignment.init (ParallelAlignment.Bare src_a) None = Ok self
      ∧ ParallelAlignment.init (ParallelAlignment.Several [src_a]) None = Ok self
      ∧ ParallelAlignment.n_sources self = 1%nat
      ∧ ParallelAlignment.n_landmarks self = 4%nat
      ∧ ParallelAlignment.n_dimensions self = 2%nat.
Proof.
  assert (has_shape 4 2 src_a) as Ha by (split; reflexivity).
  split_and!; [exact Ha|lia|].
  destruct (bare_array_is_singleton_list src_a None) as [_ Hobj].
  apply (Hobj 4%nat 2%nat Ha). lia.
Defined.


(** The mean of those three sources, computed. *)
Example three_sources_mean_computed :
  mean_target [src_a; src_b; src_c] 4 2
  = Array3 4 2 1 [[[3]; [4]]; [[5]; [6]]; [[7]; [8]]; [[9]; [10]]].
Proof. reflexivity. Qed.

(** [batch_ab], the [ParallelAlignment] of two sources of different
    contents, once its aligned sources are [aligned_ac]: the second source
    gets the slice of position 1, and an array that is no source gets
    [KeyError]. *)
Lemma aligned_version_in_batch_ab :
  ParallelAlignment.init (ParallelAlignment.Several [src_a; src_b]) None
  = Ok batch_ab
  ∧ shape3 aligned_ac = shape3 (ParallelAlignment.aligned_sources batch_ab)
  ∧ (∃ r, getitem_slice aligned_ac 1 = Ok r
          ∧ ParallelAlignment.aligned_version_of_source
              (set_aligned_sources batch_ab aligned_ac) src_b = Ok r)
  ∧ ParallelAlignment.aligned_version_of_source
      (set_aligned_sources batch_ab aligned_ac) source32 = Raise KeyError.
Proof.
  split; [reflexivity|]. split; [reflexivity|]. split.
  - destruct (aligned_version_of_last_source_with_hash
                [src_a; src_b] None batch_ab aligned_ac src_b
                eq_refl eq_refl) as [Hhit _].
    apply (Hhit 1%nat src_b); [reflexivity..|].
    intros [|[|j]] s' Hlt Hs'; [lia..|discriminate Hs'].
  - destruct (aligned_version_of_last_source_with_hash
                [src_a; src_b] None batch_ab aligned_ac source32
                eq_refl eq_refl) as [_ Hmiss].
    apply (Hmiss (digest_of source32)); [reflexivity|].
    repeat constructor; intros E; vm_compute in E; discriminate E.
Defined.

(** In [batch_ab] the second source gets the slice of position 1, and an
    array that is no source gets [KeyError]. *)
Example batch_ab_lookup_run :
  ParallelAlignment.aligned_version_of_source batch_ab src_b = Ok src_b
  ∧ ParallelAlignment.aligned_version_of_source batch_ab source32
    = Raise KeyError.
Proof. split; reflexivity. Qed.

(** C4, as stated, fails on the sources [src_a; src_c], which have one
    content: once the two slices of [aligned_sources] differ, the array
    [src_a], first in the list, gets the slice of position 1. *)
Lemma not_returns_slice_at_position_of_source :
  ¬ returns_slice_at_position_of_source [src_a; src_c].
Proof.
  intros Hclaim.
  specialize (Hclaim batch_ac aligned_ac 0%nat src_a src_a).
  assert (ParallelAlignment.aligned_version_of_source
            (set_aligned_sources batch_ac aligned_ac) src_a
          = getitem_slice aligned_ac 0) as E.
  { apply Hclaim; reflexivity. }
  vm_compute in E. discriminate E.
Qed.

(** Already as it is built, [batch_ac] holds position 1 for the content
    of [src_a], the source of position 0. *)
Example lookup_of_batch_ac :
  ParallelAlignment.init (ParallelAlignment.Several [src_a; src_c]) None
  = Ok batch_ac
  ∧ [src_a; src_c] !! 0%nat = Some src_a
  ∧ ParallelAlignment._lookup batch_ac !! digest_of src_a = Some 1%nat.
Proof. split_and!; reflexivity. Qed.

(** Three sources, the first and the third of one content. *)
Lemma duplicate_content_in_three_sources :
  Forall (has_shape 4 2) [src_a; src_b; src_c]
  ∧ 2%nat ≠ 0%nat ∧ (0 < 2)%nat
  ∧ [src_a; src_b; src_c] !! 0%nat = Some src_a
  ∧ [src_a; src_b; src_c] !! 2%nat = Some src_c
  ∧ view_uint8 src_a = view_uint8 src_c
  ∧ (∀ k s, (2 < k)%nat → [src_a; src_b; src_c] !! k = Some s →
            _numpy_hash s ≠ _numpy_hash src_c)
  ∧ ∃ self hk r,
      ParallelAlignment.init
        (ParallelAlignment.Several [src_a; src_b; src_c]) None = Ok self
      ∧ _numpy_hash src_a = Ok hk
      ∧ ParallelAlignment._lookup self !! hk = Some 2%nat
      ∧ getitem_slice (ParallelAlignment.aligned_sources self) 2 = Ok r
      ∧ ParallelAlignment.aligned_version_of_source self src_a = Ok r
      ∧ ParallelAlignment.aligned_version_of_source self src_c = Ok r.
Proof.
  assert (Forall (has_shape 4 2) [src_a; src_b; src_c]) as Hall.
  { repeat constructor. }
  assert (∀ k s, (2 < k)%nat → [src_a; src_b; src_c] !! k = Some s →
                 _numpy_hash s ≠ _numpy_hash src_c) as Hlast.
  { intros [|[|[|k]]] s Hk Hs; [lia..|discriminate Hs]. }
  split_and!; [exact Hall|lia|lia|reflexivity|reflexivity|reflexivity|exact Hlast|].
  apply (duplicate_content_maps_to_later_index
           4 2 [src_a; src_b; src_c] None 0 2 src_a src_c);
    [exact Hall|lia|lia|reflexivity|reflexivity|reflexivity|exact Hlast].
Defined.

End examples.

(** * Further properties *)

(** ** The factories and the parts of their matrices *)

Section more_factories.
Context {F : Type} `{Dtype F}.
Implicit Types (t : list F) (x y : ndarray F) (h : heap F) (R : array2 F).

(** Reading a property of a transformation, once its matrix is read. *)
Lemma linear_transformation_run (self : AffineTransformation.t) (m : ndarray F) h :
  h !! AffineTransformation.homogeneous_matrix self = Some m →
  AffineTransformation.linear_transformation self h
  = (r ← getitem_init_init m; Ok (r, h)).
Proof.
  intros Hh. unfold AffineTransformation.linear_transformation, deref, lift,
    mbind, heapM_bind, result_bind.
  rewrite Hh. by destruct (getitem_init_init m).
Qed.

Lemma translation_run (self : AffineTransformation.t) (m : ndarray F) h :
  h !! AffineTransformation.homogeneous_matrix self = Some m →
  AffineTransformation.translation self h
  = (r ← getitem_last_init m; Ok (r, h)).
Proof.
  intros Hh. unfold AffineTransformation.translation, deref, lift,
    mbind, heapM_bind, result_bind.
  rewrite Hh. by destruct (getitem_last_init m).
Qed.

(** X1: [Translation(t)] read back: its translation is [t], its linear
    transformation the identity of the size of [t]; the heap has one array
    more. *)
Theorem translation_parts_roundtrip t h :
  (T ← Translation.init t;
   tr ← AffineTransformation.translation T;
   lin ← AffineTransformation.linear_transformation T;
   mret (tr, lin)) h
  = Ok ((A1 t, A2 (eye (length t))), h ++ [A2 (translation_matrix t)]).
Proof.
  unfold mbind at 1. unfold heapM_bind. rewrite translation_init_run.
  assert ((h ++ [A2 (translation_matrix t)])
            !! AffineTransformation.homogeneous_matrix
                 (AffineTransformation.init (length h))
          = Some (A2 (translation_matrix t))) as Hh.
  { cbn [AffineTransformation.init AffineTransformation.homogeneous_matrix].
    by rewrite lookup_app_r, Nat.sub_diag. }
  unfold mbind at 1. unfold heapM_bind.
  rewrite (translation_run _ _ _ Hh), translation_translation.
  cbn [mbind result_bind].
  unfold mbind at 1. unfold heapM_bind.
  rewrite (linear_transformation_run _ _ _ Hh), translation_linear_part.
  reflexivity.
Qed.

Lemma unit_row_zeros (i s n : nat) :
  s + n ≤ i → unit_row (F:=F) i s n = replicate n f0.
Proof.
  intros Hi. unfold unit_row. rewrite <- (length_seq n s) at 2.
  apply const_fmap. intros j k Hk. apply lookup_seq in Hk as [-> Hj].
  rewrite bool_decide_eq_false_2; [done|lia].
Qed.

(** The last row of the matrix [Rotation] builds from a square [R] is the
    last row of the identity. *)
Lemma rotation_last_row R m :
  wf2 R = true → ncols R = nrows R →
  setitem_init_init (eye (nrows R + 1)) R = Ok m →
  getitem_last_init (A2 m) = Ok (A1 (replicate (nrows R) f0)).
Proof.
  intros [Hr Hc]%wf2_spec Hsq. unfold setitem_init_init, bto.
  change (nrows (eye (nrows R + 1))) with (nrows R + 1).
  change (ncols (eye (nrows R + 1))) with (nrows R + 1).
  rewrite Nat.add_sub, Hsq, !bool_decide_eq_true_2 by done.
  cbn [mbind result_bind]. intros [= <-].
  unfold getitem_last_init. cbn [nrows ncols rows].
  rewrite bool_decide_eq_false_2 by lia. rewrite Nat.add_sub.
  change ((λ i : nat, (λ j : nat, if bool_decide (i = j) then f1 else f0)
                        <$> seq 0 (nrows R + 1)) <$> seq 0 (nrows R + 1))
    with (rows (eye (F:=F) (nrows R + 1))).
  rewrite lookup_app_r.
  2: { rewrite length_zip_with, stretch_same by done. unfold py_init.
       rewrite length_take, rows_eye, length_fmap, length_seq. lia. }
  rewrite length_zip_with, stretch_same by done. unfold py_init at 1.
  rewrite length_take, rows_eye, length_fmap, length_seq.
  match goal with
  | |- context [drop _ _ !! ?k] => replace k with 0 by lia
  end.
  rewrite lookup_drop, Nat.add_0_r, list_lookup_fmap, lookup_seq_lt by lia.
  cbn [fmap option_fmap option_map]. do 2 f_equal.
  replace (nrows R + 1) with (S (nrows R)) by lia.
  rewrite (py_init_take _ (nrows R)) by apply length_unit_row.
  rewrite take_unit_row. apply unit_row_zeros. lia.
Qed.

(** X2: [Rotation(R)] of a square [R] has a translation of zeros. *)
Theorem rotation_translation_is_zero R h :
  wf2 R = true → ncols R = nrows R →
  ∃ h', (T ← Rotation.init R; AffineTransformation.translation T) h
        = Ok (A1 (replicate (nrows R) f0), h').
Proof.
  intros Hwf Hsq.
  destruct (rotation_block_roundtrip R Hwf Hsq) as (m & Hset & _).
  exists (h ++ [A2 m]).
  unfold Rotation.init, lift, alloc, mbind at 1 2 3, heapM_bind, mret, heapM_ret.
  rewrite Hset.
  rewrite (translation_run _ (A2 m)).
  2: { cbn [AffineTransformation.init AffineTransformation.homogeneous_matrix].
       by rewrite lookup_app_r, Nat.sub_diag. }
  by rewrite (rotation_last_row R m).
Qed.

(** X4: [Rotation(R)] of an [R] that is not square, and not a column either,
    raises the [ValueError] of the assignment into the block. *)
Theorem rotation_not_square_raises R h :
  ncols R ≠ nrows R → ncols R ≠ 1 →
  Rotation.init R h = Raise ValueError.
Proof.
  intros Hsq Hcol. unfold Rotation.init, lift, mbind, heapM_bind.
  unfold setitem_init_init, bto.
  change (nrows (eye (nrows R + 1))) with (nrows R + 1).
  change (ncols (eye (nrows R + 1))) with (nrows R + 1).
  rewrite Nat.add_sub.
  rewrite (bool_decide_eq_true_2 (nrows R = nrows R)) by done.
  cbn [mbind result_bind].
  rewrite (bool_decide_eq_false_2 (ncols R = nrows R)) by done.
  by rewrite (bool_decide_eq_false_2 (ncols R = 1)).
Qed.

(** X5: On a transformation whose matrix has fewer than two axes, or no row,
    [apply] raises [IndexError], whatever the points. *)
Theorem apply_index_error (self : AffineTransformation.t) (m : ndarray F) x h :
  h !! AffineTransformation.homogeneous_matrix self = Some m →
  length (shape m) < 2 ∨ shape m !! 0 = Some 0 →
  AffineTransformation.apply self x h = Raise IndexError.
Proof.
  intros Hh Hm. rewrite (apply_run self m) by done.
  destruct m as [a|v|p]; [done|done|].
  destruct Hm as [Hm|Hm]; [simpl in Hm; lia|].
  cbn [getitem_init_init mbind result_bind]. unfold getitem_last_init.
  rewrite bool_decide_eq_true_2; [done|]. by injection Hm.
Qed.

End more_factories.

(** ** Sums of products in a commutative semiring *)

Section sums.
Context {F : Type} `{Dtype F} `{!ExactArith F} `{!ExactSemiring F}.
Implicit Types (u v c : list F) (a b : F).

Lemma fadd_swap_inner a b a' b' :
  fadd (fadd a b) (fadd a' b') = fadd (fadd a a') (fadd b b').
Proof.
  rewrite <- (fadd_assoc a b), (fadd_assoc b a' b'), (fadd_comm b a').
  by rewrite <- (fadd_assoc a' b b'), (fadd_assoc a a').
Qed.

Lemma foldr_fadd_base b (l : list F) :
  foldr fadd b l = fadd (foldr fadd f0 l) b.
Proof.
  induction l as [|x l IH]; simpl.
  - by rewrite fadd_0_l.
  - by rewrite IH, fadd_assoc.
Qed.

Lemma dotp_nil_l v : dotp [] v = f0.
Proof. done. Qed.

Lemma dotp_nil_r u : dotp u [] = f0.
Proof. by destruct u. Qed.

Lemma dotp_cons a u b v : dotp (a :: u) (b :: v) = fadd (fmul a b) (dotp u v).
Proof. done. Qed.

Lemma dotp_app u v u' v' :
  length u = length v →
  dotp (u ++ u') (v ++ v') = fadd (dotp u v) (dotp u' v').
Proof.
  intros Hlen. unfold dotp. rewrite zip_with_app by done.
  by rewrite foldr_app, foldr_fadd_base.
Qed.

Lemma dotp_unit_row_r v (i s : nat) :
  dotp v (unit_row i s (length v)) =
    if bool_decide (s ≤ i) then default f0 (v !! (i - s)) else f0.
Proof.
  revert s. induction v as [|b v IH]; intros s.
  - simpl. unfold dotp. simpl. by case_bool_decide.
  - change (dotp (b :: v) (unit_row i s (length (b :: v))))
      with (fadd (fmul b (if bool_decide (i = s) then f1 else f0))
                 (dotp v (unit_row i (S s) (length v)))).
    rewrite (IH (S s)). simpl.
    repeat case_bool_decide; try lia; subst.
    + by rewrite fmul_1_r, fadd_0_r, Nat.sub_diag.
    + rewrite fmul_0_r, fadd_0_l.
      by replace (i - s) with (S (i - S s)) by lia.
    + by rewrite fmul_0_r, fadd_0_l.
Qed.

Lemma dotp_zeros_l n c : dotp (replicate n f0) c = f0.
Proof.
  revert c. induction n as [|n IH]; intros [|z c]; try done.
  cbn [replicate]. by rewrite dotp_cons, IH, fmul_0_l, fadd_0_l.
Qed.

Lemma dotp_add_l u v c :
  length u = length v →
  dotp (zip_with fadd u v) c = fadd (dotp u c) (dotp v c).
Proof.
  revert v c. induction u as [|x u IH]; intros [|y v] c Hlen; simplify_eq/=.
  - by rewrite dotp_nil_l, fadd_0_l.
  - destruct c as [|z c].
    + by rewrite !dotp_nil_r, fadd_0_l.
    + rewrite !dotp_cons, IH by done.
      by rewrite fmul_add_distr_r, fadd_swap_inner.
Qed.

Lemma dotp_scale_l a u c : dotp (fmul a <$> u) c = fmul a (dotp u c).
Proof.
  revert c. induction u as [|x u IH]; intros c.
  - by rewrite fmap_nil, !dotp_nil_l, fmul_0_r.
  - destruct c as [|z c].
    + by rewrite !dotp_nil_r, fmul_0_r.
    + rewrite fmap_cons, !dotp_cons, IH.
      by rewrite fmul_add_distr_l, fmul_assoc.
Qed.

End sums.

(** ** Products of matrices *)

Section products.
Context {F : Type} `{Dtype F} `{!ExactArith F} `{!ExactSemiring F}.
Implicit Types (u v c : list F) (m p : array2 F) (x y : ndarray F) (h : heap F).

Lemma fmap_lookup_seq_gen {A} (d : A) (l : list A) :
  (λ i, default d (l !! i)) <$> seq 0 (length l) = l.
Proof.
  apply list_eq. intros i. rewrite list_lookup_fmap.
  destruct (decide (i < length l)) as [Hi|Hi].
  - rewrite lookup_seq_lt by done. simpl.
    destruct (lookup_lt_is_Some_2 l i Hi) as [a ->]. done.
  - rewrite lookup_seq_ge, lookup_ge_None_2 by lia. done.
Qed.

Lemma length_columns m : length (columns m) = ncols m.
Proof. unfold columns. by rewrite length_fmap, length_seq. Qed.

Lemma columns_lengths m :
  Forall (λ col, length col = length (rows m)) (columns m).
Proof.
  unfold columns. apply Forall_fmap, Forall_forall. intros k _. simpl.
  by rewrite length_fmap.
Qed.

(** The columns of a matrix with one row more. *)
Lemma columns_cons (b : list F) (Bs : list (list F)) n k :
  length b = k →
  columns (Array2 (S n) k (b :: Bs)) = zip_with cons b (columns (Array2 n k Bs)).
Proof.
  intros Hb. unfold columns. cbn [rows ncols]. symmetry.
  pose proof (fmap_lookup_seq b) as Eb. rewrite Hb in Eb.
  rewrite <- Eb at 1.
  rewrite zip_with_fmap_l, zip_with_fmap_r, zip_with_diag.
  by apply list_fmap_ext.
Qed.

(** The columns of the identity are its rows. *)
Lemma columns_eye n : columns (eye (F:=F) n) = rows (eye n).
Proof.
  unfold columns. change (ncols (eye n)) with n. rewrite rows_eye.
  apply list_fmap_ext. intros k' k Hk. apply lookup_seq in Hk as [-> Hk].
  rewrite <- list_fmap_compose. unfold unit_row.
  apply list_fmap_ext. intros i' i Hi. apply lookup_seq in Hi as [-> Hi].
  simpl. rewrite list_lookup_fmap, lookup_seq_lt by done.
  simpl. repeat case_bool_decide; try done; lia.
Qed.

(** A vector of the length of the identity, times the identity. *)
Lemma dot_vector_eye v :
  dotp v <$> columns (eye (length v)) = v.
Proof.
  rewrite columns_eye, rows_eye, <- list_fmap_compose.
  etrans; [|apply (fmap_lookup_seq v)].
  apply list_fmap_ext. intros k i Hi. simpl.
  rewrite dotp_unit_row_r, bool_decide_eq_true_2 by lia.
  by rewrite Nat.sub_0_r.
Qed.

(** [np.dot] of an array whose last axis has length [n] with the identity
    of size [n] is that array. *)
Lemma np_dot_eye_r (n : nat) y :
  wf y = true → last_axis y n →
  np_dot y (A2 (eye n)) = Ok y.
Proof.
  intros Hwf Hn. destruct y as [a|v|p]; [done| |].
  - assert (length v = n) as <- by (by injection Hn).
    cbn [np_dot]. change (nrows (eye (length v))) with (length v).
    rewrite bool_decide_eq_true_2 by done. by rewrite dot_vector_eye.
  - assert (ncols p = n) as <- by (by injection Hn).
    apply wf2_spec in Hwf as [Hr Hc].
    cbn [np_dot]. change (nrows (eye (ncols p))) with (ncols p).
    change (ncols (eye (ncols p))) with (ncols p).
    rewrite bool_decide_eq_true_2 by done. do 2 f_equal.
    destruct p as [r k rs]. cbn [nrows ncols rows] in *. f_equal.
    rewrite <- (list_fmap_id rs) at 2. apply Forall_fmap_ext.
    eapply Forall_impl; [exact Hc|]. intros row <-. apply dot_vector_eye.
Qed.

End products.

(** ** Rotations, the identity and chains *)

Section chains.
Context {F : Type} `{Dtype F} `{!ExactArith F} `{!ExactSemiring F}.
Implicit Types (u v c : list F) (m p R : array2 F) (x y a b : ndarray F)
  (h : heap F).

Lemma chain_run (A B : AffineTransformation.t) a b h :
  h !! AffineTransformation.homogeneous_matrix A = Some a →
  h !! AffineTransformation.homogeneous_matrix B = Some b →
  AffineTransformation.chain A B h
  = (p ← np_dot a b; Ok (AffineTransformation.init (length h), h ++ [p])).
Proof.
  intros Ha Hb.
  unfold AffineTransformation.chain, deref, lift, alloc, mbind, heapM_bind,
    mret, heapM_ret, result_bind.
  rewrite Ha, Hb. by destruct (np_dot a b).
Qed.

(** X7: A transformation on the identity matrix is a unit of [chain] on both
    sides: the chain with a matrix of matching size has the matrix of the
    other transformation. *)
Theorem chain_identity (Id A : AffineTransformation.t) (n : nat) a h :
  h !! AffineTransformation.homogeneous_matrix Id = Some (A2 (eye n)) →
  h !! AffineTransformation.homogeneous_matrix A = Some a →
  wf a = true →
  (shape a !! 0 = Some n →
   AffineTransformation.chain Id A h
   = Ok (AffineTransformation.init (length h), h ++ [a]))
  ∧ (last_axis a n →
     AffineTransformation.chain A Id h
     = Ok (AffineTransformation.init (length h), h ++ [a])).
Proof.
  intros HI HA Hwf. split; intros Hn.
  - rewrite (chain_run Id A (A2 (eye n)) a) by done.
    by rewrite np_dot_eye_l.
  - rewrite (chain_run A Id a (A2 (eye n))) by done.
    by rewrite np_dot_eye_r.
Qed.

End chains.

Section translations.
Context {F : Type} `{Dtype F} `{!ExactArith F} `{!ExactSemiring F}.
Implicit Types (s t u v : list F) (h : heap F).

Lemma unit_row_S (i s n : nat) :
  unit_row (F:=F) i s (S n)
  = unit_row i s n ++ [if bool_decide (i = s + n) then f1 else f0].
Proof. unfold unit_row. by rewrite seq_S, fmap_app. Qed.

(** The rows of the matrix of [Translation(t)]: those of the identity,
    and the offset followed by 1. *)
Lemma rows_translation_matrix t :
  rows (translation_matrix t)
  = ((λ i, unit_row i 0 (S (length t))) <$> seq 0 (length t)) ++ [t ++ [f1]].
Proof.
  unfold translation_matrix. cbn [rows].
  replace (length t + 1) with (S (length t)) by lia.
  rewrite rows_eye, seq_S, fmap_app. cbn [fmap list_fmap Nat.add].
  rewrite alter_app_r_alt by (by rewrite length_fmap, length_seq).
  rewrite length_fmap, length_seq, Nat.sub_diag. cbn [alter list_alter].
  do 3 f_equal. rewrite unit_row_S, drop_app_length'.
  - by rewrite bool_decide_eq_true_2.
  - symmetry. apply length_unit_row.
Qed.

Lemma wf_translation_matrix t : wf2 (translation_matrix t) = true.
Proof.
  apply wf2_spec. rewrite rows_translation_matrix.
  unfold translation_matrix. cbn [nrows ncols]. split.
  - rewrite length_app, length_fmap, length_seq. simpl. lia.
  - apply Forall_app. split.
    + apply Forall_fmap, Forall_forall. intros i _.
      change (length (unit_row (F:=F) i 0 (S (length t))) = length t + 1).
      rewrite length_unit_row. lia.
    + constructor; [|done]. rewrite length_app. simpl. lia.
Qed.

(** The column of index [j] of that matrix. *)
Lemma column_translation_matrix t (j : nat) :
  j < S (length t) →
  (λ r, default f0 (r !! j)) <$> rows (translation_matrix t)
  = unit_row j 0 (length t) ++ [default f0 ((t ++ [f1]) !! j)].
Proof.
  intros Hj. rewrite rows_translation_matrix, fmap_app. f_equal.
  rewrite <- list_fmap_compose. unfold unit_row at 2.
  apply list_fmap_ext. intros i' i Hi. apply lookup_seq in Hi as [-> Hi].
  simpl. unfold unit_row. rewrite list_lookup_fmap, lookup_seq_lt by done.
  simpl. repeat case_bool_decide; try done; lia.
Qed.

End translations.

(** ** The product of matrices is associative *)

Section associativity.
Context {F : Type} `{Dtype F} `{!ExactArith F} `{!ExactSemiring F}.
Implicit Types (u v : list F) (a b c : array2 F) (h : heap F).

Lemma fmap_dotp_zip_cons (a0 : F) (a' u : list F) (cols : list (list F)) :
  dotp (a0 :: a') <$> zip_with cons u cols
  = zip_with fadd (fmul a0 <$> u) (dotp a' <$> cols).
Proof.
  revert cols. induction u as [|x u IH]; intros [|col cols]; try done.
  cbn [zip_with fmap list_fmap]. by rewrite IH.
Qed.

(** A row times a matrix times a column, summed in either order. *)
Lemma dotp_columns_assoc (Bs : list (list F)) (m : nat) :
  Forall (λ r, length r = m) Bs →
  ∀ (u v : list F),
    length u = length Bs →
    dotp (dotp u <$> columns (Array2 (length Bs) m Bs)) v
    = dotp u ((λ r, dotp r v) <$> Bs).
Proof.
  induction 1 as [|r Bs Hr HBs IH]; intros u v Hu.
  - destruct u; [|done]. unfold columns. cbn [rows ncols].
    rewrite <- list_fmap_compose.
    rewrite (const_fmap _ (seq 0 m) f0) by done.
    by rewrite dotp_zeros_l.
  - destruct u as [|a0 u]; [done|]. cbn [length].
    rewrite (columns_cons r Bs (length Bs) m Hr), fmap_dotp_zip_cons.
    rewrite dotp_add_l.
    2: { by rewrite !length_fmap, length_columns. }
    rewrite dotp_scale_l, IH by (simpl in Hu; lia).
    by rewrite fmap_cons, dotp_cons.
Qed.

(** The columns of a product. *)
Lemma columns_of_product (Bs cols : list (list F)) (n k : nat) :
  length cols = k →
  columns (Array2 n k ((λ r, dotp r <$> cols) <$> Bs))
  = (λ col, (λ r, dotp r col) <$> Bs) <$> cols.
Proof.
  intros Hk. unfold columns. cbn [rows ncols].
  etrans.
  2: { rewrite <- (fmap_lookup_seq_gen [] cols) at 1. rewrite Hk. reflexivity. }
  rewrite <- list_fmap_compose.
  apply list_fmap_ext. intros l' l Hl. apply lookup_seq in Hl as [-> Hl].
  unfold compose. cbn [Nat.add]. rewrite <- list_fmap_compose.
  destruct (lookup_lt_is_Some_2 cols l') as [col Ecol]; [lia|].
  apply list_fmap_ext. intros i r _. unfold compose.
  by rewrite list_lookup_fmap, Ecol.
Qed.

(** [np.dot] of three 2-d arrays, taken from the left or from the right:
    one result, or [ValueError] on both sides. *)
Lemma np_dot_assoc a b c :
  wf2 a = true → wf2 b = true → wf2 c = true →
  (ab ← np_dot (A2 a) (A2 b); np_dot ab (A2 c))
  = (bc ← np_dot (A2 b) (A2 c); np_dot (A2 a) bc).
Proof.
  intros [Har Hac]%wf2_spec [Hbr Hbc]%wf2_spec [Hcr Hcc]%wf2_spec.
  cbn [np_dot].
  destruct (decide (ncols a = nrows b)) as [Eab|Eab];
    destruct (decide (ncols b = nrows c)) as [Ebc|Ebc].
  - rewrite !bool_decide_eq_true_2 by done. cbn [mbind result_bind np_dot].
    cbn [nrows ncols rows]. rewrite !bool_decide_eq_true_2 by done.
    do 3 f_equal. rewrite <- list_fmap_compose.
    apply Forall_fmap_ext. eapply Forall_impl; [exact Hac|].
    intros u Hu. unfold compose.
    rewrite (columns_of_product (rows b) (columns c) (nrows b) (ncols c))
      by apply length_columns.
    rewrite <- list_fmap_compose.
    apply list_fmap_ext. intros i v _. unfold compose.
    rewrite <- Hbr in Eab.
    pose proof (dotp_columns_assoc (rows b) (ncols b) Hbc u v) as E.
    apply E. congruence.
  - rewrite (bool_decide_eq_true_2 (ncols a = nrows b)) by done.
    rewrite (bool_decide_eq_false_2 (ncols b = nrows c)) by done.
    cbn [mbind result_bind np_dot]. cbn [nrows ncols rows].
    by rewrite bool_decide_eq_false_2.
  - rewrite (bool_decide_eq_false_2 (ncols a = nrows b)) by done.
    rewrite (bool_decide_eq_true_2 (ncols b = nrows c)) by done.
    cbn [mbind result_bind np_dot]. cbn [nrows ncols rows].
    by rewrite bool_decide_eq_false_2.
  - rewrite (bool_decide_eq_false_2 (ncols a = nrows b)) by done.
    by rewrite (bool_decide_eq_false_2 (ncols b = nrows c)).
Qed.

(** X10: [chain] is associative: for three transformations on well-formed 2-d
    matrices whose product from the left is defined, chaining the chain of
    the first two with the third, and the first with the chain of the last
    two, both succeed, and the two transformations built hold one and the
    same matrix. *)
Theorem chain_associative (A B C : AffineTransformation.t) a b c
    (ab p : ndarray F) h :
  h !! AffineTransformation.homogeneous_matrix A = Some (A2 a) →
  h !! AffineTransformation.homogeneous_matrix B = Some (A2 b) →
  h !! AffineTransformation.homogeneous_matrix C = Some (A2 c) →
  wf2 a = true → wf2 b = true → wf2 c = true →
  np_dot (A2 a) (A2 b) = Ok ab →
  np_dot ab (A2 c) = Ok p →
  ∃ (L R : AffineTransformation.t) (hl hr : heap F),
    (AB ← AffineTransformation.chain A B; AffineTransformation.chain AB C) h
    = Ok (L, hl)
    ∧ (BC ← AffineTransformation.chain B C; AffineTransformation.chain A BC) h
      = Ok (R, hr)
    ∧ hl !! AffineTransformation.homogeneous_matrix L = Some p
    ∧ hr !! AffineTransformation.homogeneous_matrix R = Some p.
Proof.
  intros HA HB HC Hwa Hwb Hwc Hab Hp.
  pose proof (np_dot_assoc a b c Hwa Hwb Hwc) as Hassoc.
  rewrite Hab in Hassoc. cbn [mbind result_bind] in Hassoc. rewrite Hp in Hassoc.
  destruct (np_dot (A2 b) (A2 c)) as [bc|] eqn:Hbc; [|done].
  cbn [mbind result_bind] in Hassoc. symmetry in Hassoc.
  exists (AffineTransformation.init (length (h ++ [ab]))),
         (AffineTransformation.init (length (h ++ [bc]))),
         ((h ++ [ab]) ++ [p]), ((h ++ [bc]) ++ [p]).
  assert (∀ (q : ndarray F) (T : AffineTransformation.t) (m : ndarray F),
            h !! AffineTransformation.homogeneous_matrix T = Some m →
            (h ++ [q]) !! AffineTransformation.homogeneous_matrix T = Some m)
    as Hold.
  { intros q T m HT. by apply lookup_app_l_Some. }
  assert (∀ q : ndarray F,
            (h ++ [q]) !! AffineTransformation.homogeneous_matrix
                             (AffineTransformation.init (length h)) = Some q)
    as Hnew.
  { intros q.
    cbn [AffineTransformation.init AffineTransformation.homogeneous_matrix].
    by rewrite lookup_app_r, Nat.sub_diag. }
  split_and!.
  - unfold mbind at 1. unfold heapM_bind.
    rewrite (chain_run A B (A2 a) (A2 b)), Hab by done.
    cbn [mbind result_bind].
    rewrite (chain_run _ C ab (A2 c)) by auto. by rewrite Hp.
  - unfold mbind at 1. unfold heapM_bind.
    rewrite (chain_run B C (A2 b) (A2 c)), Hbc by done.
    cbn [mbind result_bind].
    rewrite (chain_run A _ (A2 a) bc) by auto. by rewrite Hassoc.
  - cbn [AffineTransformation.init AffineTransformation.homogeneous_matrix].
    by rewrite lookup_app_r, Nat.sub_diag.
  - cbn [AffineTransformation.init AffineTransformation.homogeneous_matrix].
    by rewrite lookup_app_r, Nat.sub_diag.
Qed.

End associativity.

(** ** ParallelAlignment: what a construction keeps *)

Section batch_invariants.
Context {F : Type} `{Dtype F} `{Digest}.
Implicit Types (s q : ndarray F) (t : array3 F) (lk : gmap string nat)
  (self : ParallelAlignment.t F).

(** Every entry the loop adds to the lookup maps the hash of a source to
    the position of that source. *)
Lemma stack_from_entries (D : nat) (rest : list (ndarray F)) :
  ∀ i lk t lk' t',
    ParallelAlignment.stack_from D i rest (lk, t) = Ok (lk', t') →
    (rest ≠ [] → D ≠ 0)
    ∧ ∀ k j, lk' !! k = Some j →
        lk !! k = Some j
        ∨ ∃ s, i ≤ j ∧ rest !! (j - i) = Some s ∧ _numpy_hash s = Ok k.
Proof.
  induction rest as [|source rest IH]; intros i lk t lk' t' Hrun.
  - simpl in Hrun. simplify_eq. split; [done|]. by left.
  - simpl in Hrun. case_bool_decide as HD; [done|].
    destruct (setitem_slice t i source) as [stack|]; [|done].
    destruct (_numpy_hash source) as [hk|] eqn:Eh; [|done].
    simpl in Hrun. apply IH in Hrun as [_ Hentries].
    split; [done|]. intros k j Hk.
    destruct (Hentries k j Hk) as [Hin|(s & Hle & Hs & Hhash)].
    + destruct (decide (hk = k)) as [->|Hne].
      * rewrite lookup_insert_eq in Hin. injection Hin as <-.
        right. exists source. by rewrite Nat.sub_diag.
      * rewrite lookup_insert_ne in Hin by done. by left.
    + right. exists s. split_and!; [lia| |done].
      by replace (j - i) with (S (j - S i)) by lia.
Qed.

(** X13: The sizes of a [ParallelAlignment] built from a list: as many sources
    as the list has, the two axes of the first source as landmarks and
    dimensions, dimensions that are not 0, and aligned sources that are
    the sources. *)
Theorem init_sizes (srcs : list (ndarray F)) target self :
  ParallelAlignment.init (ParallelAlignment.Several srcs) target = Ok self →
  ParallelAlignment.n_sources self = length srcs
  ∧ (∃ s0, srcs !! 0 = Some s0
           ∧ shape s0 !! 0 = Some (ParallelAlignment.n_landmarks self)
           ∧ shape s0 !! 1 = Some (ParallelAlignment.n_dimensions self))
  ∧ ParallelAlignment.n_dimensions self ≠ 0
  ∧ ParallelAlignment.aligned_sources self = ParallelAlignment.sources self.
Proof.
  unfold ParallelAlignment.init, shape_at. intros Hinit.
  destruct (srcs !! 0) as [s0|] eqn:E0; [|done]. cbn [mbind result_bind] in Hinit.
  destruct (shape s0 !! 0) as [L|] eqn:EL; [|done]. cbn [mbind result_bind] in Hinit.
  destruct (shape s0 !! 1) as [D|] eqn:ED; [|done]. cbn [mbind result_bind] in Hinit.
  destruct (ParallelAlignment.stack_from D 0 srcs (∅, zeros3 L D (length srcs)))
    as [[lk t]|] eqn:Erun; [|done].
  pose proof (stack_from_lookup _ _ _ _ _ _ _ Erun) as (Hsh & _).
  pose proof (stack_from_entries _ _ _ _ _ _ _ Erun) as (HD & _).
  injection Hsh as HL Hd HN.
  assert (srcs ≠ []) as Hne by (by intros ->).
  assert (ParallelAlignment.sources self = t
          ∧ ParallelAlignment.aligned_sources self = t) as [Es Ea].
  { cbn [mbind result_bind fst snd] in Hinit.
    destruct target; [case_bool_decide|]; by simplify_eq. }
  unfold ParallelAlignment.n_sources, ParallelAlignment.n_landmarks,
    ParallelAlignment.n_dimensions.
  rewrite Es, Ea, HL, Hd, HN. split_and!; eauto.
Qed.

Lemma init_entries (srcs : list (ndarray F)) target self k j :
  ParallelAlignment.init (ParallelAlignment.Several srcs) target = Ok self →
  ParallelAlignment._lookup self !! k = Some j →
  ∃ s, srcs !! j = Some s ∧ _numpy_hash s = Ok k.
Proof.
  unfold ParallelAlignment.init, shape_at. intros Hinit Hk.
  destruct (srcs !! 0) as [s0|]; [|done]. cbn [mbind result_bind] in Hinit.
  destruct (shape s0 !! 0) as [L|]; [|done]. cbn [mbind result_bind] in Hinit.
  destruct (shape s0 !! 1) as [D|]; [|done]. cbn [mbind result_bind] in Hinit.
  destruct (ParallelAlignment.stack_from D 0 srcs (∅, zeros3 L D (length srcs)))
    as [[lk t]|] eqn:Erun; [|done].
  pose proof (stack_from_entries _ _ _ _ _ _ _ Erun) as (_ & Hentries).
  assert (ParallelAlignment._lookup self = lk) as El.
  { cbn [mbind result_bind fst snd] in Hinit.
    destruct target; [case_bool_decide|]; by simplify_eq. }
  rewrite El in Hk.
  destruct (Hentries k j Hk) as [Hin|(s & _ & Hs & Hhash)]; [done|].
  exists s. by rewrite Nat.sub_0_r in Hs.
Qed.

(** X14: What the lookup of a [ParallelAlignment] holds: every key is the
    content hash of the source at the position it maps to, a position of
    the stack. *)
Theorem lookup_entries_are_sources (srcs : list (ndarray F)) target self k j :
  ParallelAlignment.init (ParallelAlignment.Several srcs) target = Ok self →
  ParallelAlignment._lookup self !! k = Some j →
  j < ParallelAlignment.n_sources self
  ∧ ∃ s, srcs !! j = Some s ∧ _numpy_hash s = Ok k.
Proof.
  intros Hinit Hk.
  destruct (init_entries srcs target self k j Hinit Hk) as (s & Hs & Hhash).
  split; [|by exists s].
  pose proof (init_lookup srcs target self Hinit) as (Hdim & _).
  unfold ParallelAlignment.n_sources.
  assert (dim2 (ParallelAlignment.sources self)
          = dim2 (ParallelAlignment.aligned_sources self)) as ->.
  { revert Hinit. unfold ParallelAlignment.init.
    destruct (srcs !! 0); [|done]. cbn [mbind result_bind].
    destruct (shape_at _ 0); [|done]. cbn [mbind result_bind].
    destruct (shape_at _ 1); [|done]. cbn [mbind result_bind].
    destruct (ParallelAlignment.stack_from _ _ _ _) as [[lk t]|]; [|done].
    cbn [mbind result_bind fst snd].
    destruct target; [case_bool_decide|]; intros; by simplify_eq. }
  rewrite Hdim. by eapply lookup_lt_Some.
Qed.

(** X15: On a [ParallelAlignment] as it is built, [aligned_version_of_source]
    of an array that has a content hash returns a slice or raises
    [KeyError]: the position it finds is always in the stack. What it
    returns is the slice at the position of a source with that hash. *)
Theorem aligned_version_in_bounds (srcs : list (ndarray F)) target self q k :
  ParallelAlignment.init (ParallelAlignment.Several srcs) target = Ok self →
  _numpy_hash q = Ok k →
  ParallelAlignment.aligned_version_of_source self q = Raise KeyError
  ∨ ∃ j s r,
      srcs !! j = Some s ∧ _numpy_hash s = Ok k
      ∧ getitem_slice (ParallelAlignment.aligned_sources self) j = Ok r
      ∧ ParallelAlignment.aligned_version_of_source self q = Ok r.
Proof.
  intros Hinit Hq.
  destruct (ParallelAlignment._lookup self !! k) as [j|] eqn:Hk.
  - right.
    destruct (init_entries srcs target self k j Hinit Hk) as (s & Hs & Hhash).
    pose proof (init_lookup srcs target self Hinit) as (Hdim & _).
    destruct (getitem_slice_Ok (ParallelAlignment.aligned_sources self) j)
      as [r Hr].
    { rewrite Hdim. by eapply lookup_lt_Some. }
    exists j, s, r. split_and!; [done..|].
    rewrite <- Hr. by apply (aligned_version_hit self q k j).
  - left. by apply (aligned_version_miss self q k).
Qed.

End batch_invariants.

(** ** ParallelAlignment: sources of other shapes *)

Section broadcasts.
Context {F : Type} `{Dtype F} `{Digest}.
Implicit Types (s q : ndarray F) (t : array3 F) (lk : gmap string nat)
  (self : ParallelAlignment.t F).

Lemma bto_Ok n k : bto n k = Ok () → n = k ∨ n = 1.
Proof. unfold bto. repeat case_bool_decide; intros; simplify_eq; auto. Qed.

Lemma bto_Raise n k e : bto n k = Raise e → n ≠ k ∧ n ≠ 1 ∧ e = ValueError.
Proof. unfold bto. repeat case_bool_decide; intros; by simplify_eq. Qed.

Lemma Forall_stretch {A} (P : A → Prop) (k : nat) (l : list A) :
  Forall P l → Forall P (stretch k l).
Proof.
  intros Hl. unfold stretch. case_bool_decide; [done|].
  destruct l as [|x [|y l]]; try done.
  apply Forall_replicate. by apply Forall_inv in Hl.
Qed.

(** A list of [L] rows of [D] elements, by row and column. *)
Lemma nested_tabulate (b : list (list F)) (L D : nat) :
  length b = L → Forall (λ r, length r = D) b →
  b = tabulate L D (λ l d, default f0 (b !! l ≫= (.!! d))).
Proof.
  intros Hl Hr.
  by apply (rows_tabulate (Array2 L D b)), wf2_spec.
Qed.

(** The broadcast of a well-formed array to (L, D) has that shape. *)
Lemma broadcast_to_shape s (L D : nat) (b : list (list F)) :
  wf s = true → broadcast_to s L D = Ok b →
  length b = L ∧ Forall (λ r, length r = D) b.
Proof.
  intros Hwf Hb. destruct s as [x|v|m]; cbn [broadcast_to] in Hb.
  - simplify_eq. split; [apply length_replicate|].
    apply Forall_replicate, length_replicate.
  - destruct (bto (length v) D) as [[]|] eqn:Ev; [|done].
    apply bto_Ok in Ev. cbn [mbind result_bind] in Hb. simplify_eq.
    split; [apply length_replicate|].
    apply Forall_replicate. by apply length_stretch.
  - apply wf2_spec in Hwf as [Hr Hc].
    destruct (bto (nrows m) L) as [[]|] eqn:Er; [|done].
    destruct (bto (ncols m) D) as [[]|] eqn:Ec; [|done].
    apply bto_Ok in Er. apply bto_Ok in Ec.
    cbn [mbind result_bind] in Hb. simplify_eq. split.
    + apply length_stretch. by rewrite length_fmap, Hr.
    + apply Forall_stretch, Forall_fmap.
      eapply Forall_impl; [exact Hc|]. intros r Hlen. simpl.
      apply length_stretch. by rewrite Hlen.
Qed.

Lemma broadcast_to_tabulate s (L D : nat) (b : list (list F)) :
  wf s = true → broadcast_to s L D = Ok b →
  b = tabulate L D (stacked_entry s L D).
Proof.
  intros Hwf Hb. destruct (broadcast_to_shape s L D b Hwf Hb) as [Hl Hr].
  rewrite (nested_tabulate b L D Hl Hr) at 1.
  apply tabulate_ext. intros l d _ _. unfold stacked_entry. by rewrite Hb.
Qed.

(** A source of the shape of the slice is written as it is. *)
Lemma stacked_slice_same (L D : nat) s :
  has_shape L D s → stacked_slice s L D = s.
Proof.
  intros Hs. destruct (has_shape_inv L D s Hs) as (m & -> & Hwf & <- & <-).
  unfold stacked_slice.
  rewrite <- (broadcast_to_tabulate (A2 m) (nrows m) (ncols m) (rows m));
    [by destruct m|done|by apply broadcast_to_same].
Qed.

Lemma has_shape_stackable (L D : nat) s : has_shape L D s → stackable L D s.
Proof.
  intros Hs. destruct (has_shape_inv L D s Hs) as (m & -> & Hwf & <- & <-).
  split_and!; [done| |by eexists].
  exists (rows m). by apply broadcast_to_same.
Qed.

(** Writing a stackable source at position [i]. *)
Lemma setitem_slice_stackable L D N (f : nat → nat → list F) i s :
  stackable L D s → i < N →
  setitem_slice (Array3 L D N (tabulate L D f)) i s
  = Ok (Array3 L D N (tabulate L D (λ l d, <[i:=stacked_entry s L D l d]> (f l d)))).
Proof.
  intros (Hwf & [b Hb] & _) Hi.
  unfold setitem_slice. cbn [dim0 dim1 dim2 cells].
  rewrite bool_decide_eq_true_2 by done.
  rewrite Hb. cbn [mbind result_bind]. do 2 f_equal.
  rewrite (broadcast_to_tabulate s L D b Hwf Hb) at 1.
  by rewrite zip_with_tabulate.
Qed.

(** The loop over stackable sources succeeds, and overwrites every cell
    of the stack from position [i] on with what the sources give it. *)
Lemma stack_from_stackable L D N (rest : list (ndarray F)) :
  D ≠ 0 → Forall (stackable L D) rest →
  ∀ i lk (f : nat → nat → list F),
    i + length rest ≤ N →
    ∃ lk',
      ParallelAlignment.stack_from D i rest (lk, Array3 L D N (tabulate L D f))
      = Ok (lk', Array3 L D N
                   (tabulate L D
                      (λ l d, overwrite i
                                ((λ s, stacked_entry s L D l d) <$> rest)
                                (f l d)))).
Proof.
  intros HD. induction 1 as [|s rest Hs Hrest IH]; intros i lk f Hlen.
  - by exists lk.
  - simpl in Hlen. cbn [ParallelAlignment.stack_from].
    rewrite bool_decide_eq_false_2 by done. cbn [snd fst].
    rewrite (setitem_slice_stackable L D N f i s) by (done || lia).
    destruct Hs as (_ & _ & [k Hk]). rewrite Hk. cbn [mbind result_bind].
    destruct (IH (S i) (<[k:=i]> lk)
                (λ l d, <[i:=stacked_entry s L D l d]> (f l d))) as [lk' ->];
      [lia|].
    by exists lk'.
Qed.


(** The slice of position [i] of a stack that holds at (l, d) the elements
    [e s l d] of the sources [s]. *)
Lemma getitem_slice_stack L D (srcs : list (ndarray F)) (i : nat) s
    (e : ndarray F → nat → nat → F) :
  srcs !! i = Some s →
  getitem_slice
    (Array3 L D (length srcs) (tabulate L D (λ l d, (λ s, e s l d) <$> srcs))) i
  = Ok (A2 (Array2 L D (tabulate L D (e s)))).
Proof.
  intros Hi. unfold getitem_slice. cbn [dim0 dim1 dim2 cells].
  rewrite bool_decide_eq_true_2 by (by eapply lookup_lt_Some).
  do 3 f_equal. rewrite fmap_tabulate. apply tabulate_ext. intros l d _ _.
  by rewrite list_lookup_fmap, Hi.
Qed.


(** X16: For sources of one shape the stack gives every source back: the slice
    of [sources], and of [aligned_sources] as it is built, at the position
    of a source is that source. *)
Theorem stack_slice_roundtrip L D (srcs : list (ndarray F)) target self i s :
  Forall (has_shape L D) srcs →
  ParallelAlignment.init (ParallelAlignment.Several srcs) target = Ok self →
  srcs !! i = Some s →
  getitem_slice (ParallelAlignment.sources self) i = Ok s
  ∧ getitem_slice (ParallelAlignment.aligned_sources self) i = Ok s.
Proof.
  intros Hall Hinit Hs.
  assert (srcs ≠ []) as Hne by (by intros ->).
  destruct (decide (D = 0)) as [->|HD].
  { by rewrite (init_empty_axis L) in Hinit. }
  destruct (init_well_shaped L D srcs target Hne HD Hall) as [lk E].
  cbv zeta in E. rewrite E in Hinit. injection Hinit as <-.
  cbn [ParallelAlignment.sources ParallelAlignment.aligned_sources].
  rewrite (getitem_slice_stack L D srcs i s entry) by done.
  assert (has_shape L D s) as Hshape.
  { rewrite Forall_lookup in Hall. by apply (Hall i). }
  destruct (has_shape_inv L D s Hshape) as (m & -> & Hwf & <- & <-).
  rewrite <- (rows_tabulate m) by done. by destruct m.
Qed.

(** X19: With an explicit target the shape of the target is not compared with
    anything: for sources of one shape (L, D), D not 0, the construction
    succeeds with any 2-d target, kept with one more axis of length 1. *)
Theorem explicit_target_is_kept L D (srcs : list (ndarray F)) (tg : array2 F) :
  Forall (has_shape L D) srcs → srcs ≠ [] → D ≠ 0 →
  ∃ self,
    ParallelAlignment.init (ParallelAlignment.Several srcs) (Some tg) = Ok self
    ∧ ParallelAlignment.target self = newaxis tg
    ∧ shape3 (ParallelAlignment.target self) = [nrows tg; ncols tg; 1].
Proof.
  intros Hall Hne HD.
  destruct (init_well_shaped L D srcs (Some tg) Hne HD Hall) as [lk E].
  cbv zeta in E. eexists. split; [exact E|]. by split.
Qed.

(** X20: Without a source, or with a first source of fewer than two axes, the
    constructor raises [IndexError]. *)
Theorem init_index_error (srcs : list (ndarray F)) target :
  srcs = [] ∨ (∃ s0, srcs !! 0 = Some s0 ∧ length (shape s0) < 2) →
  ParallelAlignment.init (ParallelAlignment.Several srcs) target
  = Raise IndexError.
Proof.
  intros [->|(s0 & Hfirst & Hrank)]; [done|].
  unfold ParallelAlignment.init, shape_at. rewrite Hfirst.
  cbn [mbind result_bind].
  destruct s0 as [x|v|m]; [done|done|]. simpl in Hrank. lia.
Qed.

(** X21: The [assert] of the loop has [n_dim] as its condition: a first source
    of shape (L, 0) makes the constructor raise [AssertionError], whatever
    the other sources and the target are. *)
Theorem init_asserts_n_dim (srcs : list (ndarray F)) s0 (L : nat) target :
  srcs !! 0 = Some s0 → shape s0 = [L; 0] →
  ParallelAlignment.init (ParallelAlignment.Several srcs) target
  = Raise AssertionError.
Proof.
  intros Hfirst Hs0. unfold ParallelAlignment.init, shape_at.
  rewrite Hfirst. cbn [mbind result_bind]. rewrite Hs0.
  cbn [lookup list_lookup mbind result_bind].
  destruct srcs as [|s srcs]; [done|]. done.
Qed.

Lemma stack_from_app (D : nat) (pre rest : list (ndarray F)) :
  ∀ i st,
    ParallelAlignment.stack_from D i (pre ++ rest) st
    = (st' ← ParallelAlignment.stack_from D i pre st;
       ParallelAlignment.stack_from D (i + length pre) rest st').
Proof.
  induction pre as [|s pre IH]; intros i st.
  - cbn [app ParallelAlignment.stack_from mbind result_bind length].
    by rewrite Nat.add_0_r.
  - cbn [app ParallelAlignment.stack_from length].
    case_bool_decide; [done|].
    destruct (setitem_slice st.2 i s) as [stack|]; [|done].
    destruct (_numpy_hash s) as [k|]; [|done].
    cbn [mbind result_bind]. rewrite IH.
    by replace (S i + length pre) with (i + S (length pre)) by lia.
Qed.

(** X22: A 2-d source that does not broadcast to the shape (L, D) of the first
    source, after sources that do, makes the constructor raise the
    [ValueError] of the assignment into the stack. *)
Theorem init_shape_mismatch_raises L D (pre post : list (ndarray F)) s0
    (m : array2 F) target :
  pre !! 0 = Some s0 → shape s0 = [L; D] → D ≠ 0 →
  Forall (stackable L D) pre →
  (nrows m ≠ L ∧ nrows m ≠ 1) ∨ (ncols m ≠ D ∧ ncols m ≠ 1) →
  ParallelAlignment.init (ParallelAlignment.Several (pre ++ A2 m :: post)) target
  = Raise ValueError.
Proof.
  intros Hfirst Hs0 HD Hall Hm. unfold ParallelAlignment.init, shape_at.
  rewrite (lookup_app_l_Some _ _ _ _ Hfirst). cbn [mbind result_bind].
  rewrite Hs0. cbn [lookup list_lookup mbind result_bind].
  unfold zeros3. rewrite replicate_tabulate, stack_from_app.
  destruct (stack_from_stackable L D (length (pre ++ A2 m :: post)) pre HD Hall
              0 ∅ (λ _ _, replicate (length (pre ++ A2 m :: post)) f0))
    as [lk ->].
  { rewrite length_app. lia. }
  cbn [mbind result_bind ParallelAlignment.stack_from].
  rewrite bool_decide_eq_false_2 by done.
  unfold setitem_slice. cbn [snd dim0 dim1 dim2].
  rewrite bool_decide_eq_true_2 by (rewrite length_app; simpl; lia).
  cbn [broadcast_to]. unfold bto.
  destruct Hm as [[Hr1 Hr2]|[Hc1 Hc2]].
  - rewrite (bool_decide_eq_false_2 (nrows m = L)) by done.
    by rewrite (bool_decide_eq_false_2 (nrows m = 1)).
  - rewrite (bool_decide_eq_false_2 (ncols m = D)) by done.
    rewrite (bool_decide_eq_false_2 (ncols m = 1)) by done.
    by repeat case_bool_decide.
Qed.

End broadcasts.

(** ** ParallelAlignment: a source and its aligned version *)

Section roundtrip.
Context {F : Type} `{Dtype F} `{Digest}.
Implicit Types (s q : ndarray F) (self : ParallelAlignment.t F).

(** The last position of a list at which a decidable property holds. *)
Lemma last_position {A} (P : A → Prop) `{∀ x, Decision (P x)} (l : list A) :
  ∀ i x, l !! i = Some x → P x →
    ∃ j y, l !! j = Some y ∧ P y
           ∧ ∀ j' y', j < j' → l !! j' = Some y' → ¬ P y'.
Proof.
  induction l as [|a l IH]; intros i x Hi Hx; [done|].
  destruct (decide (Exists P l)) as [Hex|Hnone].
  - apply Exists_exists in Hex as (y & Hy & HPy).
    apply list_elem_of_lookup in Hy as [i' Hi'].
    destruct (IH i' y Hi' HPy) as (j & z & Hj & HPz & Hlast).
    exists (S j), z. split_and!; [done..|].
    intros [|j'] y' Hlt Hy'; [lia|]. apply (Hlast j'); [lia|done].
  - rewrite <- Forall_Exists_neg in Hnone.
    destruct i as [|i].
    + exists 0, a. simpl in Hi. simplify_eq. split_and!; [done..|].
      intros [|j'] y' Hlt Hy'; [lia|]. simpl in Hy'.
      rewrite Forall_lookup in Hnone. by apply (Hnone j').
    + simpl in Hi. rewrite Forall_lookup in Hnone.
      by destruct (Hnone i x Hi).
Qed.

(** X17: Insert, then look up: in a [ParallelAlignment] of sources of one
    shape, as it is built, [aligned_version_of_source] of a source returns
    that source, provided the digest sets it apart from the sources of
    another content. *)
Theorem aligned_version_roundtrip L D (srcs : list (ndarray F)) target self i s :
  Forall (has_shape L D) srcs →
  ParallelAlignment.init (ParallelAlignment.Several srcs) target = Ok self →
  srcs !! i = Some s →
  (∀ j s', srcs !! j = Some s' → _numpy_hash s' = _numpy_hash s → s' = s) →
  ParallelAlignment.aligned_version_of_source self s = Ok s.
Proof.
  intros Hall Hinit Hs Hfree.
  pose proof (init_lookup srcs target self Hinit) as (_ & Hhash & _ & Hhit).
  rewrite Forall_lookup in Hhash. destruct (Hhash i s Hs) as [k Hk].
  destruct (last_position (λ s', _numpy_hash s' = Ok k) srcs i s Hs Hk)
    as (j & s' & Hj & Hk' & Hlast).
  assert (s' = s) as -> by (apply (Hfree j); [done|congruence]).
  rewrite (aligned_version_hit self s k j Hk (Hhit j s k Hj Hk Hlast)).
  assert (srcs ≠ []) as Hne by (by intros ->).
  destruct (decide (D = 0)) as [->|HD].
  { by rewrite (init_empty_axis L) in Hinit. }
  destruct (init_well_shaped L D srcs target Hne HD Hall) as [lk E].
  cbv zeta in E. rewrite E in Hinit. injection Hinit as <-.
  cbn [ParallelAlignment.aligned_sources].
  rewrite (getitem_slice_stack L D srcs j s entry) by done.
  assert (has_shape L D s) as Hshape.
  { rewrite Forall_lookup in Hall. by apply (Hall i). }
  destruct (has_shape_inv L D s Hshape) as (m & -> & Hwf & <- & <-).
  rewrite <- (rows_tabulate m) by done. by destruct m.
Qed.

End roundtrip.

(** ** Chains of matrices that do not fit *)

Section misfits.
Context {F : Type} `{Dtype F}.
Implicit Types (a b : array2 F) (h : heap F).

(** X11: [chain] on two 2-d matrices, the first with another number of columns
    than the second has rows, raises the [ValueError] of [np.dot]. *)
Theorem chain_size_mismatch (A B : AffineTransformation.t) a b h :
  h !! AffineTransformation.homogeneous_matrix A = Some (A2 a) →
  h !! AffineTransformation.homogeneous_matrix B = Some (A2 b) →
  ncols a ≠ nrows b →
  AffineTransformation.chain A B h = Raise ValueError.
Proof.
  intros HA HB Hne.
  unfold AffineTransformation.chain, deref, lift, mbind, heapM_bind.
  rewrite HA, HB. cbn [np_dot]. by rewrite bool_decide_eq_false_2.
Qed.

End misfits.

(** * The further properties on the integer model *)

Section more_examples.
Import IntModel.
Local Open Scope Z_scope.

Lemma rotation_translation_R2 :
  wf2 R2 = true ∧ ncols R2 = nrows R2
  ∧ ∃ h', (T ← Rotation.init R2; AffineTransformation.translation T) []
          = Ok (A1 (replicate (nrows R2) f0), h').
Proof.
  split_and!; [reflexivity..|].
  apply (rotation_translation_is_zero R2 []); reflexivity.
Defined.

Lemma rotation_R23_raises :
  ncols R23 ≠ nrows R23 ∧ ncols R23 ≠ 1%nat
  ∧ Rotation.init R23 [] = Raise ValueError.
Proof.
  split_and!; [discriminate..|].
  apply (rotation_not_square_raises R23 []); discriminate.
Defined.

Lemma apply_on_vector_matrix :
  ([source5] : list (ndarray Z)) !! 0%nat = Some source5
  ∧ ((length (shape source5) < 2)%nat ∨ shape source5 !! 0%nat = Some 0%nat)
  ∧ AffineTransformation.apply (AffineTransformation.init 0) points [source5]
    = Raise IndexError.
Proof.
  assert ((length (shape source5) < 2)%nat ∨ shape source5 !! 0%nat = Some 0%nat)
    as Hm by (left; simpl; lia).
  split_and!; [reflexivity|exact Hm|].
  apply (apply_index_error (AffineTransformation.init 0) source5 points [source5]
           eq_refl Hm).
Defined.

Lemma chain_identity_M3 :
  ([A2 (eye 3); A2 M3] : list (ndarray Z)) !! 0%nat = Some (A2 (eye 3))
  ∧ ([A2 (eye 3); A2 M3] : list (ndarray Z)) !! 1%nat = Some (A2 M3)
  ∧ wf (A2 M3) = true
  ∧ shape (A2 M3) !! 0%nat = Some 3%nat
  ∧ last_axis (A2 M3) 3
  ∧ AffineTransformation.chain
      (AffineTransformation.init 0) (AffineTransformation.init 1)
      [A2 (eye 3); A2 M3]
    = Ok (AffineTransformation.init 2, [A2 (eye 3); A2 M3; A2 M3])
  ∧ AffineTransformation.chain
      (AffineTransformation.init 1) (AffineTransformation.init 0)
      [A2 (eye 3); A2 M3]
    = Ok (AffineTransformation.init 2, [A2 (eye 3); A2 M3; A2 M3]).
Proof.
  destruct (chain_identity
              (AffineTransformation.init 0) (AffineTransformation.init 1)
              3 (A2 M3) [A2 (eye 3); A2 M3] eq_refl eq_refl eq_refl)
    as [Hl Hr].
  split_and!; [reflexivity..| |].
  - apply Hl. reflexivity.
  - apply Hr. reflexivity.
Defined.

Lemma chain_associative_M3 :
  ([A2 M3; A2 R2m] : list (ndarray Z)) !! 0%nat = Some (A2 M3)
  ∧ ([A2 M3; A2 R2m] : list (ndarray Z)) !! 1%nat = Some (A2 R2m)
  ∧ wf2 M3 = true ∧ wf2 R2m = true
  ∧ np_dot (A2 M3) (A2 R2m) = Ok M3R2h
  ∧ np_dot M3R2h (A2 M3) = Ok M3R2M3
  ∧ ∃ (L R : AffineTransformation.t) (hl hr : list (ndarray Z)),
      (AB ← AffineTransformation.chain
              (AffineTransformation.init 0) (AffineTransformation.init 1);
       AffineTransformation.chain AB (AffineTransformation.init 0))
        [A2 M3; A2 R2m]
      = Ok (L, hl)
      ∧ (BC ← AffineTransformation.chain
                (AffineTransformation.init 1) (AffineTransformation.init 0);
         AffineTransformation.chain (AffineTransformation.init 0) BC)
          [A2 M3; A2 R2m]
        = Ok (R, hr)
      ∧ hl !! AffineTransformation.homogeneous_matrix L = Some M3R2M3
      ∧ hr !! AffineTransformation.homogeneous_matrix R = Some M3R2M3.
Proof.
  split_and!; [reflexivity..|].
  apply (chain_associative
           (AffineTransformation.init 0) (AffineTransformation.init 1)
           (AffineTransformation.init 0) M3 R2m M3 M3R2h M3R2M3 [A2 M3; A2 R2m]);
    reflexivity.
Defined.

Lemma chain_M3_R2_raises :
  ([A2 M3; A2 R2] : list (ndarray Z)) !! 0%nat = Some (A2 M3)
  ∧ ([A2 M3; A2 R2] : list (ndarray Z)) !! 1%nat = Some (A2 R2)
  ∧ ncols M3 ≠ nrows R2
  ∧ AffineTransformation.chain
      (AffineTransformation.init 0) (AffineTransformation.init 1) [A2 M3; A2 R2]
    = Raise ValueError.
Proof.
  split_and!; [reflexivity|reflexivity|discriminate|].
  apply (chain_size_mismatch
           (AffineTransformation.init 0) (AffineTransformation.init 1)
           M3 R2 [A2 M3; A2 R2]); [reflexivity|reflexivity|discriminate].
Defined.

End more_examples.

Section batch_examples.
Import IntModel.
Local Open Scope Z_scope.

Lemma sizes_of_batch_ab :
  ParallelAlignment.init (ParallelAlignment.Several [src_a; src_b]) None
  = Ok batch_ab
  ∧ ParallelAlignment.n_sources batch_ab = length [src_a; src_b]
  ∧ (∃ s0, [src_a; src_b] !! 0%nat = Some s0
           ∧ shape s0 !! 0%nat = Some (ParallelAlignment.n_landmarks batch_ab)
           ∧ shape s0 !! 1%nat = Some (ParallelAlignment.n_dimensions batch_ab))
  ∧ ParallelAlignment.n_dimensions batch_ab ≠ 0%nat
  ∧ ParallelAlignment.aligned_sources batch_ab
    = ParallelAlignment.sources batch_ab.
Proof.
  split; [reflexivity|].
  apply (init_sizes [src_a; src_b] None batch_ab). reflexivity.
Defined.

Lemma lookup_entry_of_batch_ab :
  ParallelAlignment.init (ParallelAlignment.Several [src_a; src_b]) None
  = Ok batch_ab
  ∧ ParallelAlignment._lookup batch_ab !! digest_of src_b = Some 1%nat
  ∧ (1 < ParallelAlignment.n_sources batch_ab)%nat
  ∧ ∃ s, [src_a; src_b] !! 1%nat = Some s
         ∧ _numpy_hash s = Ok (digest_of src_b).
Proof.
  split; [reflexivity|]. split; [reflexivity|].
  apply (lookup_entries_are_sources [src_a; src_b] None batch_ab
           (digest_of src_b) 1); reflexivity.
Defined.

Lemma aligned_version_in_bounds_batch_ab :
  ParallelAlignment.init (ParallelAlignment.Several [src_a; src_b]) None
  = Ok batch_ab
  ∧ _numpy_hash src_b = Ok (digest_of src_b)
  ∧ (ParallelAlignment.aligned_version_of_source batch_ab src_b = Raise KeyError
     ∨ ∃ j s r,
         [src_a; src_b] !! j = Some s ∧ _numpy_hash s = Ok (digest_of src_b)
         ∧ getitem_slice (ParallelAlignment.aligned_sources batch_ab) j = Ok r
         ∧ ParallelAlignment.aligned_version_of_source batch_ab src_b = Ok r).
Proof.
  split; [reflexivity|]. split; [reflexivity|].
  apply (aligned_version_in_bounds [src_a; src_b] None batch_ab src_b
           (digest_of src_b)); reflexivity.
Defined.


Lemma slices_of_batch_ab :
  Forall (has_shape 4 2) [src_a; src_b]
  ∧ ParallelAlignment.init (ParallelAlignment.Several [src_a; src_b]) None
    = Ok batch_ab
  ∧ [src_a; src_b] !! 1%nat = Some src_b
  ∧ getitem_slice (ParallelAlignment.sources batch_ab) 1 = Ok src_b
  ∧ getitem_slice (ParallelAlignment.aligned_sources batch_ab) 1 = Ok src_b.
Proof.
  assert (Forall (has_shape 4 2) [src_a; src_b]) as Hall.
  { repeat constructor. }
  split_and!; [exact Hall|reflexivity|reflexivity|..];
    apply (stack_slice_roundtrip 4 2 [src_a; src_b] None batch_ab 1 src_b Hall);
    reflexivity.
Defined.

Lemma target_of_another_shape :
  Forall (has_shape 4 2) [src_a; src_b]
  ∧ [src_a; src_b] ≠ [] ∧ 2%nat ≠ 0%nat
  ∧ ∃ self,
      ParallelAlignment.init (ParallelAlignment.Several [src_a; src_b])
        (Some target11) = Ok self
      ∧ ParallelAlignment.target self = newaxis target11
      ∧ shape3 (ParallelAlignment.target self)
        = [nrows target11; ncols target11; 1%nat].
Proof.
  assert (Forall (has_shape 4 2) [src_a; src_b]) as Hall.
  { repeat constructor. }
  split_and!; [exact Hall|discriminate|lia|].
  apply (explicit_target_is_kept 4 2 [src_a; src_b] target11 Hall);
    [discriminate|lia].
Defined.

Lemma batch_of_vector_raises :
  ([source5] = [] ∨ ∃ s0, [source5] !! 0%nat = Some s0 ∧ (length (shape s0) < 2)%nat)
  ∧ ParallelAlignment.init (ParallelAlignment.Several [source5]) None
    = Raise IndexError.
Proof.
  assert ([source5] = []
          ∨ ∃ s0, [source5] !! 0%nat = Some s0 ∧ (length (shape s0) < 2)%nat)
    as Hc.
  { right. exists source5. split; [reflexivity|simpl; lia]. }
  split; [exact Hc|].
  apply (init_index_error [source5] None Hc).
Defined.

Lemma batch_of_empty_axis_raises :
  [src_empty_axis; src_a] !! 0%nat = Some src_empty_axis
  ∧ shape src_empty_axis = [4; 0]%nat
  ∧ ParallelAlignment.init
      (ParallelAlignment.Several [src_empty_axis; src_a]) None
    = Raise AssertionError.
Proof.
  split_and!; [reflexivity..|].
  apply (init_asserts_n_dim [src_empty_axis; src_a] src_empty_axis 4 None);
    reflexivity.
Defined.

Lemma batch_of_mismatched_raises :
  [src_a] !! 0%nat = Some src_a
  ∧ shape src_a = [4; 2]%nat ∧ 2%nat ≠ 0%nat
  ∧ Forall (stackable 4 2) [src_a]
  ∧ ((3 ≠ 4 ∧ 3 ≠ 1) ∨ (2 ≠ 2 ∧ 2 ≠ 1))%nat
  ∧ ParallelAlignment.init
      (ParallelAlignment.Several ([src_a] ++ source32 :: [])) None
    = Raise ValueError.
Proof.
  assert (Forall (stackable 4 2) [src_a]) as Hall.
  { repeat constructor; by eexists. }
  assert ((3 ≠ 4 ∧ 3 ≠ 1) ∨ (2 ≠ 2 ∧ 2 ≠ 1))%nat as Hm by (left; lia).
  split_and!; [reflexivity|reflexivity|lia|exact Hall|exact Hm|].
  apply (init_shape_mismatch_raises 4 2 [src_a] [] src_a
           (Array2 3 2 [[1; 2]; [3; 4]; [5; 6]]) None);
    [reflexivity|reflexivity|lia|exact Hall|exact Hm].
Defined.

(** In [batch_ac], whose two sources have one content, each source gets
    itself back. *)
Lemma aligned_version_roundtrip_batch_ac :
  Forall (has_shape 4 2) [src_a; src_c]
  ∧ ParallelAlignment.init (ParallelAlignment.Several [src_a; src_c]) None
    = Ok batch_ac
  ∧ [src_a; src_c] !! 0%nat = Some src_a
  ∧ (∀ j s', [src_a; src_c] !! j = Some s' →
             _numpy_hash s' = _numpy_hash src_a → s' = src_a)
  ∧ ParallelAlignment.aligned_version_of_source batch_ac src_a = Ok src_a.
Proof.
  assert (Forall (has_shape 4 2) [src_a; src_c]) as Hall.
  { repeat constructor. }
  assert (∀ j s', [src_a; src_c] !! j = Some s' →
                  _numpy_hash s' = _numpy_hash src_a → s' = src_a) as Hfree.
  { intros [|[|j]] s' Hs' _; [| |discriminate Hs'];
      injection Hs' as <-; reflexivity. }
  split_and!; [exact Hall|reflexivity|reflexivity|exact Hfree|].
  apply (aligned_version_roundtrip 4 2 [src_a; src_c] None batch_ac 0 src_a Hall);
    [reflexivity|reflexivity|exact Hfree].
Defined.

End batch_examples.

(** ** Landmarks in rows, and the target of an Alignment *)

Section layouts.
Context {F : Type} `{Dtype F}.
Implicit Types (t : list F) (x : array2 F) (h : heap F)
  (source target : ndarray F).

(** X6: Points in the layout of the alignments, one landmark a row, cannot be
    given to [Translation(t).apply] unless there are as many landmarks as
    dimensions: for a 2-d [x] of shape (r, n) with n the length of [t] and
    r another number, the product with the n-by-n linear part raises
    [ValueError]. *)
Theorem translation_apply_landmarks_in_rows t x h :
  ncols x = length t → nrows x ≠ length t →
  (T ← Translation.init t; AffineTransformation.apply T (A2 x)) h
  = Raise ValueError.
Proof.
  intros Hc Hr.
  apply (translation_apply_mismatch t (A2 x)
           (A2 (Array2 (nrows x) (length t) ((λ r, add_vec (length t) r t) <$> rows x)))
           (nrows x) h); [|done|done].
  cbn [np_add]. unfold bdim. rewrite Hc.
  by rewrite bool_decide_eq_true_2.
Qed.

(** X12: [Alignment] never reads its target: with another target the
    constructor raises the same exception, or builds the same object but
    for the target it holds. An object that is built has the shape of its
    source as (n_landmarks, n_dim), an n_dim that is not 0, and a copy of
    the source as its aligned source. *)
Theorem alignment_target_is_never_read source target target' :
  match Alignment.init source target with
  | Ok o =>
      Alignment.init source target'
      = Ok (Alignment.Build (Alignment.source o) (Alignment.aligned_source o)
              (Alignment.n_landmarks o) (Alignment.n_dim o) target')
      ∧ Alignment.target o = target
      ∧ shape source = [Alignment.n_landmarks o; Alignment.n_dim o]
      ∧ Alignment.n_dim o ≠ 0
      ∧ Alignment.source o = source
      ∧ Alignment.aligned_source o = source
  | Raise e => Alignment.init source target' = Raise e
  end.
Proof.
  unfold Alignment.init.
  destruct (shape source) as [|l [|d [|k sh]]]; try done.
  case_bool_decide; [done|]. by cbn.
Qed.

End layouts.

Section layout_examples.
Import IntModel.
Local Open Scope Z_scope.

Lemma translation_apply_three_landmarks :
  ncols (Array2 3 2 [[1; 2]; [3; 4]; [5; 6]]) = length offset
  ∧ nrows (Array2 3 2 [[1; 2]; [3; 4]; [5; 6]]) ≠ length offset
  ∧ (T ← Translation.init offset; AffineTransformation.apply T source32) []
    = Raise ValueError.
Proof.
  split_and!; [reflexivity|discriminate|].
  apply (translation_apply_landmarks_in_rows offset
           (Array2 3 2 [[1; 2]; [3; 4]; [5; 6]]) []);
    [reflexivity|discriminate].
Defined.

End layout_examples.

(** * Properties that do not need exact arithmetic *)

(** ** Where the arithmetic is exact *)

Section exact.
Context {F : Type} `{Dtype F}.
Implicit Types (u v ys : list F) (p : array2 F) (x y : ndarray F) (h : heap F).

(** Exact arithmetic is exact on all values. *)
Lemma exact_arith_exact_on `{!ExactArith F} ys : exact_on ys.
Proof.
  apply Forall_forall. intros a _. split_and!.
  - apply fmul_1_l.
  - apply fadd_0_r.
  - apply Forall_forall. intros b _. by rewrite fmul_0_l, fadd_0_l.
Qed.

Lemma exact_semiring_exact_beside `{!ExactArith F} `{!ExactSemiring F} u ys :
  exact_beside u ys.
Proof.
  apply Forall_forall. intros a _. split.
  - apply fmul_1_r.
  - apply Forall_forall. intros b _. by rewrite fmul_0_r, fadd_0_l.
Qed.

Lemma exact_on_subseteq ys v : exact_on ys → v ⊆ ys → exact_on v.
Proof.
  unfold exact_on. rewrite !Forall_forall. intros Hys Hsub a Ha.
  destruct (Hys a (Hsub a Ha)) as (H1 & H2 & H3). split_and!; [done..|].
  rewrite Forall_forall in H3. apply Forall_forall. intros b Hb.
  apply H3. apply elem_of_cons in Hb as [->|Hb]; [left|right; by apply Hsub].
Qed.

(** The row of index [i] of an identity picks the element of index [i]. *)
Lemma dotp_unit_row_exact ys v (i s : nat) :
  exact_on ys → v ⊆ ys →
  dotp (unit_row i s (length v)) v =
    if bool_decide (s ≤ i) then default f0 (v !! (i - s)) else f0.
Proof.
  intros Hys Hsub. revert s.
  induction v as [|b v IH]; intros s.
  - simpl. unfold dotp. simpl. by case_bool_decide.
  - change (dotp (unit_row i s (length (b :: v))) (b :: v))
      with (fadd (fmul (if bool_decide (i = s) then f1 else f0) b)
                 (dotp (unit_row i (S s) (length v)) v)).
    rewrite (IH (λ c Hc, Hsub c (list_elem_of_further c b v Hc)) (S s)).
    unfold exact_on in Hys. rewrite Forall_forall in Hys.
    destruct (Hys b (Hsub b (list_elem_of_here b v))) as (H1 & H2 & H3).
    rewrite Forall_forall in H3. simpl.
    repeat case_bool_decide; try lia; subst.
    + by rewrite H1, H2, Nat.sub_diag.
    + replace (i - s) with (S (i - S s)) by lia. simpl.
      apply H3. destruct (v !! (i - S s)) as [c|] eqn:Ec; simpl; [|left].
      right. apply Hsub. right. by eapply list_elem_of_lookup_2.
    + apply H3. left.
Qed.

(** The identity matrix times a vector of its length. *)
Lemma dot_eye_vector_exact v :
  exact_on v → (λ r, dotp r v) <$> rows (eye (length v)) = v.
Proof.
  intros Hv. rewrite rows_eye, <- list_fmap_compose.
  etrans; [|apply (fmap_lookup_seq v)].
  apply list_fmap_ext. intros k i Hi. simpl.
  rewrite (dotp_unit_row_exact v) by done.
  rewrite bool_decide_eq_true_2 by lia.
  by rewrite Nat.sub_0_r.
Qed.

(** A column of a well-formed matrix holds entries of the matrix. *)
Lemma column_entries p (k : nat) :
  wf2 p = true → k < ncols p →
  (λ r, default f0 (r !! k)) <$> rows p ⊆ mjoin (rows p).
Proof.
  intros [Hr Hc]%wf2_spec Hk a Ha.
  apply list_elem_of_fmap in Ha as (r & -> & Hr').
  rewrite Forall_forall in Hc. specialize (Hc r Hr').
  destruct (lookup_lt_is_Some_2 r k) as [c Ec]; [lia|].
  rewrite Ec. simpl. apply list_elem_of_join. exists r. split; [|done].
  by eapply list_elem_of_lookup_2.
Qed.

(** The identity matrix times a matrix with as many rows. *)
Lemma dot_eye_matrix_exact p :
  wf2 p = true → exact_on (mjoin (rows p)) →
  (λ r, dotp r <$> columns p) <$> rows (eye (nrows p)) = rows p.
Proof.
  intros Hwf Hp. pose proof Hwf as [Hr Hc]%wf2_spec.
  rewrite rows_eye, <- list_fmap_compose.
  apply list_eq. intros i. rewrite list_lookup_fmap.
  destruct (decide (i < nrows p)) as [Hi|Hi].
  2: { rewrite lookup_seq_ge, lookup_ge_None_2 by lia. done. }
  rewrite lookup_seq_lt by done. simpl.
  destruct (lookup_lt_is_Some_2 (rows p) i) as [r Er]; [lia|].
  rewrite Er. f_equal.
  assert (length r = ncols p) as Hlen.
  { rewrite Forall_lookup in Hc. by apply (Hc i). }
  unfold columns. rewrite <- list_fmap_compose.
  etrans; [|apply (fmap_lookup_seq r)]. rewrite Hlen.
  apply list_fmap_ext. intros k' k Hk. apply lookup_seq in Hk as [-> Hk].
  cbn [Nat.add]. unfold compose.
  pose proof (dotp_unit_row_exact (mjoin (rows p))
                ((λ r0 : list F, default f0 (r0 !! k')) <$> rows p) i 0 Hp
                (column_entries p k' Hwf Hk)) as E.
  rewrite length_fmap, Hr in E. rewrite E.
  rewrite bool_decide_eq_true_2 by lia.
  by rewrite Nat.sub_0_r, list_lookup_fmap, Er.
Qed.

(** [np.dot] of the identity of size [n] with an array whose first axis
    has length [n] is that array, where the arithmetic is exact on its
    entries. *)
Lemma np_dot_eye_l_exact (n : nat) y :
  wf y = true → shape y !! 0 = Some n → exact_on (entries y) →
  np_dot (A2 (eye n)) y = Ok y.
Proof.
  intros Hwf Hn Hy. destruct y as [a|v|p]; simplify_eq/=.
  - rewrite bool_decide_eq_true_2 by done. by rewrite dot_eye_vector_exact.
  - rewrite bool_decide_eq_true_2 by done. rewrite dot_eye_matrix_exact by done.
    by destruct p.
Qed.


(** C3: for a 1-d offset [t] of length n and points [x] whose sum with [t]
    is defined and has a first axis of length n, as the product with the
    n-by-n linear part asks for, [Translation(t).apply(x)] returns that
    sum when the arithmetic is exact on the entries of the sum: 1 times
    an entry is that entry, an entry plus 0 is that entry, and 0 times an
    entry adds nothing to 0 or to an entry. The only change to the heap
    is the matrix of the new transformation. *)
Theorem translation_apply_is_sum t x y h :
  wf x = true →
  np_add x (A1 t) = Ok y →
  shape y !! 0 = Some (length t) →
  exact_on (entries y) →
  (T ← Translation.init t; AffineTransformation.apply T x) h =
    Ok (y, h ++ [A2 (translation_matrix t)]).
Proof.
  intros Hwf Hy Hn Hexact.
  unfold mbind at 1. unfold heapM_bind. rewrite translation_init_run.
  rewrite (apply_run _ (A2 (translation_matrix t))).
  2: { cbn [AffineTransformation.init AffineTransformation.homogeneous_matrix].
       by rewrite lookup_app_r, Nat.sub_diag. }
  rewrite translation_linear_part, translation_translation.
  unfold mbind, result_bind.
  rewrite Hy. rewrite np_dot_eye_l_exact; [done| |done|done].
  by apply (np_add_vector_wf x t).
Qed.

(** In exact arithmetic the claim holds as it is stated. *)
Lemma exact_arith_translation_apply `{!ExactArith F} :
  translation_apply_is_always_sum F.
Proof.
  intros t x y h Hwf Hy Hn.
  unfold mbind at 1. unfold heapM_bind. rewrite translation_init_run.
  rewrite (apply_run _ (A2 (translation_matrix t))).
  2: { cbn [AffineTransformation.init AffineTransformation.homogeneous_matrix].
       by rewrite lookup_app_r, Nat.sub_diag. }
  rewrite translation_linear_part, translation_translation.
  unfold mbind, result_bind.
  rewrite Hy. rewrite np_dot_eye_l; [done| |done].
  by apply (np_add_vector_wf x t).
Qed.

(** ** Rotations *)

Lemma zip_with_fadd_zeros_r v :
  Forall (λ a, fadd a f0 = a) v →
  zip_with fadd v (replicate (length v) f0) = v.
Proof.
  induction 1 as [|a v Ha _ IH]; [done|]. simpl. by rewrite Ha, IH.
Qed.

(** The sum with a vector of zeros, of the length of the last axis. *)
Lemma np_add_zeros (n : nat) x :
  wf x = true → last_axis x n →
  Forall (λ a, fadd a f0 = a) (entries x) →
  np_add x (A1 (replicate n f0)) = Ok x.
Proof.
  intros Hwf Hn Hx. destruct x as [a|v|p]; [done| |].
  - assert (length v = n) as <- by (by injection Hn).
    cbn [np_add]. unfold bdim. rewrite length_replicate.
    rewrite bool_decide_eq_true_2 by done. cbn [mbind result_bind].
    unfold add_vec. rewrite !stretch_same by (done || apply length_replicate).
    by rewrite zip_with_fadd_zeros_r.
  - assert (ncols p = n) as <- by (by injection Hn).
    apply wf2_spec in Hwf as [Hr Hc].
    cbn [np_add]. unfold bdim. rewrite length_replicate.
    rewrite bool_decide_eq_true_2 by done. cbn [mbind result_bind].
    do 2 f_equal. destruct p as [r k rs]. cbn [nrows ncols rows entries] in *.
    f_equal. rewrite <- (list_fmap_id rs) at 2. apply Forall_fmap_ext.
    rewrite Forall_forall in Hc. rewrite Forall_forall in Hx.
    apply Forall_forall. intros row Hrow.
    unfold add_vec. rewrite <- (Hc row Hrow).
    rewrite !stretch_same by (done || apply length_replicate).
    apply zip_with_fadd_zeros_r.
    apply Forall_forall. intros a Ha. apply Hx.
    apply list_elem_of_join. by exists row.
Qed.

(** X3: [Rotation(R).apply(x)], for a square [R] of size n and points whose
    last axis has length n and whose entries are kept by the sum with 0,
    is [np.dot(R, x)]: the translation of a rotation adds nothing. *)
Theorem rotation_apply_is_dot (R : array2 F) x h :
  wf2 R = true → ncols R = nrows R →
  wf x = true → last_axis x (nrows R) →
  Forall (λ a, fadd a f0 = a) (entries x) →
  ∃ h', (T ← Rotation.init R; AffineTransformation.apply T x) h
        = (r ← np_dot (A2 R) x; Ok (r, h')).
Proof.
  intros Hwf Hsq Hx Hn Hexact.
  destruct (rotation_block_roundtrip R Hwf Hsq) as (m & Hset & Hget).
  exists (h ++ [A2 m]).
  unfold Rotation.init, lift, alloc, mbind at 1 2 3, heapM_bind, mret, heapM_ret.
  rewrite Hset.
  rewrite (apply_run _ (A2 m)).
  2: { cbn [AffineTransformation.init AffineTransformation.homogeneous_matrix].
       by rewrite lookup_app_r, Nat.sub_diag. }
  rewrite Hget, (rotation_last_row R m) by done.
  cbn [mbind result_bind]. by rewrite np_add_zeros.
Qed.

End exact.

(** ** Chains of translations *)

Section translations_exact.
Context {F : Type} `{Dtype F}.
Implicit Types (s t u v ys : list F) (x y : ndarray F) (h : heap F).

(** The matrix of [Translation(t)] holds 0, 1 and the offset. *)
Lemma entries_translation_matrix t :
  mjoin (rows (translation_matrix t)) ⊆ f0 :: f1 :: t.
Proof.
  intros a Ha. apply list_elem_of_join in Ha as (r & Ha & Hr).
  rewrite rows_translation_matrix in Hr.
  apply elem_of_app in Hr as [Hr|Hr].
  - apply list_elem_of_fmap in Hr as (i & -> & _).
    apply list_elem_of_fmap in Ha as (j & -> & _).
    case_bool_decide; [right; left|left].
  - apply list_elem_of_singleton in Hr as ->.
    apply elem_of_app in Ha as [Ha|Ha]; [by do 2 right|].
    apply list_elem_of_singleton in Ha as ->. right; left.
Qed.

(** An offset followed by 1, times a column of the matrix of a
    translation: a row of the identity above an entry [b] of the last
    row. *)
Lemma dotp_offset_column s ys (b : F) (j k : nat) :
  exact_beside s ys →
  fmul f1 b = b → fadd b f0 = b → b ∈ ys →
  (∀ a, k ≤ j → s !! (j - k) = Some a → fadd a b ∈ ys) →
  dotp (s ++ [f1]) (unit_row j k (length s) ++ [b])
  = if bool_decide (k ≤ j)
    then match s !! (j - k) with Some a => fadd a b | None => b end
    else b.
Proof.
  intros Hs H1 H0 Hb. revert k.
  induction Hs as [|a s [Ha1 Ha0] Hs IH]; intros k Hsum.
  - simpl. unfold dotp. simpl. rewrite H1, H0. by case_bool_decide.
  - change (dotp ((a :: s) ++ [f1]) (unit_row j k (length (a :: s)) ++ [b]))
      with (fadd (fmul a (if bool_decide (j = k) then f1 else f0))
                 (dotp (s ++ [f1]) (unit_row j (S k) (length s) ++ [b]))).
    rewrite Forall_forall in Ha0.
    rewrite (IH (S k)).
    2: { intros a' Hk Ha'. apply Hsum; [lia|].
         by replace (j - k) with (S (j - S k)) by lia. }
    destruct (decide (j = k)) as [->|Hjk].
    + rewrite (bool_decide_eq_true_2 (k = k)) by done.
      rewrite (bool_decide_eq_false_2 (S k ≤ k)) by lia.
      rewrite (bool_decide_eq_true_2 (k ≤ k)) by done.
      by rewrite Nat.sub_diag, Ha1.
    + rewrite (bool_decide_eq_false_2 (j = k)) by done.
      destruct (decide (k ≤ j)) as [Hle|Hgt].
      * rewrite (bool_decide_eq_true_2 (S k ≤ j)) by lia.
        rewrite (bool_decide_eq_true_2 (k ≤ j)) by done.
        replace (j - k) with (S (j - S k)) by lia. cbn [lookup list_lookup].
        destruct (s !! (j - S k)) as [a'|] eqn:Ea'; apply Ha0; [|done].
        apply Hsum; [done|].
        by replace (j - k) with (S (j - S k)) by lia.
      * rewrite (bool_decide_eq_false_2 (S k ≤ j)) by lia.
        rewrite (bool_decide_eq_false_2 (k ≤ j)) by done.
        by apply Ha0.
Qed.

(** The last row of the product of the matrices of two translations. *)
Lemma dot_offset_row s t :
  length s = length t →
  exact_on (f0 :: f1 :: t) →
  exact_beside s (f1 :: t ++ zip_with fadd s t) →
  dotp (s ++ [f1]) <$> columns (translation_matrix t)
  = zip_with fadd s t ++ [f1].
Proof.
  intros Hlen Ht Hs. unfold columns.
  change (ncols (translation_matrix t)) with (length t + 1).
  replace (length t + 1) with (S (length t)) by lia.
  rewrite <- list_fmap_compose.
  unfold exact_on in Ht. rewrite Forall_forall in Ht.
  assert ((dotp (s ++ [f1]) ∘
             (λ k, (λ r : list F, default f0 (r !! k)) <$> rows (translation_matrix t)))
            <$> seq 0 (S (length t))
          = (λ j, match s !! j with
                  | Some a => fadd a (default f0 ((t ++ [f1]) !! j))
                  | None => default f0 ((t ++ [f1]) !! j)
                  end)
              <$> seq 0 (S (length t))) as ->.
  { apply list_fmap_ext. intros j' j Hj. apply lookup_seq in Hj as [-> Hj].
    unfold compose. cbn [Nat.add].
    rewrite column_translation_matrix by done. rewrite <- Hlen.
    assert (default f0 ((t ++ [f1]) !! j') ∈ f1 :: t) as Hb.
    { destruct (decide (j' < length t)) as [Hlt|Hge].
      - destruct (lookup_lt_is_Some_2 t j' Hlt) as [b Eb].
        rewrite lookup_app_l, Eb by done. right.
        by eapply list_elem_of_lookup_2.
      - replace j' with (length t) by lia.
        rewrite lookup_app_r, Nat.sub_diag by done. left. }
    destruct (Ht (default f0 ((t ++ [f1]) !! j'))) as (H1 & H0 & _).
    { right. done. }
    rewrite (dotp_offset_column s (f1 :: t ++ zip_with fadd s t)); try done.
    - by rewrite bool_decide_eq_true_2, Nat.sub_0_r by lia.
    - apply elem_of_cons in Hb as [->|Hb]; [left|right].
      apply elem_of_app. by left.
    - intros a _ Ea. rewrite Nat.sub_0_r in Ea. right. apply elem_of_app. right.
      apply lookup_lt_Some in Ea as Hlt.
      destruct (lookup_lt_is_Some_2 t j') as [b Eb]; [lia|].
      rewrite lookup_app_l, Eb by lia. simpl.
      apply (list_elem_of_lookup_2 _ j').
      by rewrite lookup_zip_with, Ea, Eb. }
  rewrite seq_S, fmap_app. cbn [fmap list_fmap Nat.add]. f_equal.
  - apply list_eq. intros j. rewrite list_lookup_fmap, lookup_zip_with.
    destruct (decide (j < length t)) as [Hj|Hj].
    + rewrite lookup_seq_lt by done. simpl.
      destruct (lookup_lt_is_Some_2 s j) as [a Ea]; [lia|].
      destruct (lookup_lt_is_Some_2 t j) as [b Eb]; [lia|].
      rewrite lookup_app_l by done. by rewrite Ea, Eb.
    + rewrite lookup_seq_ge by lia. simpl.
      by rewrite (lookup_ge_None_2 s) by lia.
  - rewrite (lookup_ge_None_2 s) by lia.
    by rewrite lookup_app_r, Nat.sub_diag by done.
Qed.

(** The product of the matrices of two translations of one size is the
    matrix of the translation by the sum of the offsets. *)
Lemma dot_translation_matrices s t :
  length s = length t →
  exact_on (f0 :: f1 :: t) →
  exact_beside s (f1 :: t ++ zip_with fadd s t) →
  np_dot (A2 (translation_matrix s)) (A2 (translation_matrix t))
  = Ok (A2 (translation_matrix (zip_with fadd s t))).
Proof.
  intros Hlen Ht Hs. cbn [np_dot].
  change (ncols (translation_matrix s)) with (length s + 1).
  change (nrows (translation_matrix s)) with (length s + 1).
  change (nrows (translation_matrix t)) with (length t + 1).
  change (ncols (translation_matrix t)) with (length t + 1).
  rewrite bool_decide_eq_true_2 by lia. do 2 f_equal.
  assert (length (zip_with fadd s t) = length t) as Hz.
  { rewrite length_zip_with. lia. }
  pose proof (dot_eye_matrix_exact (translation_matrix t)
                (wf_translation_matrix t)
                (exact_on_subseteq _ _ Ht (entries_translation_matrix t))) as E.
  change (nrows (translation_matrix t)) with (length t + 1) in E.
  replace (length t + 1) with (S (length t)) in E by lia.
  rewrite rows_eye, seq_S, fmap_app, fmap_app in E.
  rewrite (rows_translation_matrix t) in E.
  apply app_inj_1 in E as [E _].
  2: { by rewrite !length_fmap. }
  assert (∀ z, translation_matrix z
               = Array2 (length z + 1) (length z + 1) (rows (translation_matrix z)))
    as Eeta by done.
  rewrite (Eeta (zip_with fadd s t)), Hz, Hlen. f_equal.
  rewrite (rows_translation_matrix s), fmap_app, Hlen, E.
  rewrite (rows_translation_matrix (zip_with fadd s t)), Hz. f_equal.
  cbn [fmap list_fmap]. by rewrite dot_offset_row.
Qed.

Lemma chain_of_translations_run s t h :
  length s = length t →
  exact_on (f0 :: f1 :: t) →
  exact_beside s (f1 :: t ++ zip_with fadd s t) →
  (S ← Translation.init s; T ← Translation.init t;
   AffineTransformation.chain S T) h
  = Ok (AffineTransformation.init (length h + 2),
        h ++ [A2 (translation_matrix s); A2 (translation_matrix t);
              A2 (translation_matrix (zip_with fadd s t))]).
Proof.
  intros Hlen Ht Hs.
  unfold mbind at 1. unfold heapM_bind. rewrite translation_init_run.
  unfold mbind at 1. unfold heapM_bind. rewrite translation_init_run.
  rewrite (chain_run _ _ (A2 (translation_matrix s)) (A2 (translation_matrix t))).
  - rewrite dot_translation_matrices by done. cbn [mbind result_bind].
    rewrite <- !app_assoc, !length_app. cbn [length app]. reflexivity.
  - cbn [AffineTransformation.init AffineTransformation.homogeneous_matrix].
    rewrite lookup_app_l by (rewrite length_app; simpl; lia).
    by rewrite lookup_app_r, Nat.sub_diag.
  - cbn [AffineTransformation.init AffineTransformation.homogeneous_matrix].
    rewrite lookup_app_r by done. by rewrite Nat.sub_diag.
Qed.

(** X8: Chaining two translations of one size gives the translation by the sum
    of their offsets: the matrix of the chain, the third array the heap
    gains, is the matrix [Translation] builds from the sum. It holds
    where the arithmetic is exact on 0, 1 and the second offset, and on
    the first offset beside 1, the second offset and the sum. *)
Theorem chain_of_translations s t h :
  length s = length t →
  exact_on (f0 :: f1 :: t) →
  exact_beside s (f1 :: t ++ zip_with fadd s t) →
  (S ← Translation.init s; T ← Translation.init t;
   AffineTransformation.chain S T) h
  = Ok (AffineTransformation.init (length h + 2),
        h ++ [A2 (translation_matrix s); A2 (translation_matrix t);
              A2 (translation_matrix (zip_with fadd s t))]).
Proof. apply chain_of_translations_run. Qed.

(** X9: The chain of two translations moves points by the sum of the offsets:
    for points [x] whose sum with [s + t] is defined and has a first axis
    of the length of the offsets, [apply] of the chain returns that sum,
    where the arithmetic is exact on the offsets as for the chain, and on
    the entries of the sum. *)
Theorem chain_of_translations_apply s t x y h :
  length s = length t →
  exact_on (f0 :: f1 :: t) →
  exact_beside s (f1 :: t ++ zip_with fadd s t) →
  wf x = true →
  np_add x (A1 (zip_with fadd s t)) = Ok y →
  shape y !! 0 = Some (length t) →
  exact_on (entries y) →
  ∃ h',
    (S ← Translation.init s; T ← Translation.init t;
     C ← AffineTransformation.chain S T;
     AffineTransformation.apply C x) h
    = Ok (y, h').
Proof.
  intros Hlen Ht Hs Hwf Hy Hn Hexact. eexists.
  pose proof (chain_of_translations_run s t h Hlen Ht Hs) as Hchain.
  unfold mbind at 1 2 in Hchain. unfold heapM_bind in Hchain.
  unfold mbind at 1 2 3. unfold heapM_bind.
  destruct (Translation.init s h) as [[S h1]|]; [|done].
  destruct (Translation.init t h1) as [[T h2]|]; [|done].
  rewrite Hchain.
  assert (length (zip_with fadd s t) = length t) as Hz.
  { rewrite length_zip_with. lia. }
  rewrite (apply_run _ (A2 (translation_matrix (zip_with fadd s t)))).
  2: { cbn [AffineTransformation.init AffineTransformation.homogeneous_matrix].
       rewrite (lookup_app_r h) by lia.
       by replace (length h + 2 - length h) with 2 by lia. }
  rewrite translation_linear_part, translation_translation.
  cbn [mbind result_bind]. rewrite Hy. cbn [mbind result_bind].
  rewrite np_dot_eye_l_exact; [reflexivity| |by rewrite Hz|done].
  by apply (np_add_vector_wf x (zip_with fadd s t)).
Qed.

End translations_exact.

(** * The properties on binary64 *)

Section float_examples.
Import Float64Model.

(** [Translation([0.5, 0.25]).apply] on two points. *)
Lemma translation_apply_points64 :
  wf points64 = true
  ∧ np_add points64 (A1 shift) = Ok moved64
  ∧ shape moved64 !! 0 = Some (length shift)
  ∧ exact_on (entries moved64)
  ∧ (T ← Translation.init shift; AffineTransformation.apply T points64) []
    = Ok (moved64, [A2 (translation_matrix shift)]).
Proof.
  assert (exact_on (entries moved64)) as Hexact by repeat constructor.
  split_and!; [reflexivity..|exact Hexact|].
  apply (translation_apply_is_sum shift points64 moved64 []);
    [reflexivity..|exact Hexact].
Defined.

(** C3, as stated, fails in binary64 on the offset (0, 0) and a point at
    infinity: the sum is the point, and the product of the second row
    (0, 1) of the identity with it is 0 * inf + 1, which is NaN. *)
Lemma translation_apply_is_not_always_sum :
  ¬ translation_apply_is_always_sum float.
Proof.
  intros Hclaim.
  specialize (Hclaim [0; 0]%float far_point far_point []
                eq_refl eq_refl eq_refl).
  apply (f_equal (λ r, match r with
                       | Ok (A1 [_; b], _) => PrimFloat.is_nan b
                       | _ => false
                       end)) in Hclaim.
  vm_compute in Hclaim. discriminate Hclaim.
Qed.

(** What [apply] returns there. *)
Example translation_apply_far_point :
  np_add far_point (A1 [0; 0]%float) = Ok far_point
  ∧ (T ← Translation.init [0; 0]%float; AffineTransformation.apply T far_point) []
    = Ok (A1 [infinity; nan]%float, [A2 (translation_matrix [0; 0]%float)]).
Proof. split; reflexivity. Qed.

(** [Rotation] of a quarter turn on two points. *)
Lemma rotation_apply_quarter_turn :
  wf2 quarter_turn = true ∧ ncols quarter_turn = nrows quarter_turn
  ∧ wf points64 = true ∧ last_axis points64 (nrows quarter_turn)
  ∧ Forall (λ a, fadd a f0 = a) (entries points64)
  ∧ ∃ h', (T ← Rotation.init quarter_turn; AffineTransformation.apply T points64) []
          = (r ← np_dot (A2 quarter_turn) points64; Ok (r, h')).
Proof.
  assert (Forall (λ a, fadd a f0 = a) (entries points64)) as Hexact
    by repeat constructor.
  split_and!; [reflexivity..|exact Hexact|].
  apply (rotation_apply_is_dot quarter_turn points64 []);
    [reflexivity..|exact Hexact].
Defined.

Lemma chain_of_two_shifts :
  length shift = length shift2
  ∧ exact_on (f0 :: f1 :: shift2)
  ∧ exact_beside shift (f1 :: shift2 ++ zip_with fadd shift shift2)
  ∧ (S ← Translation.init shift; T ← Translation.init shift2;
     AffineTransformation.chain S T) []
    = Ok (AffineTransformation.init 2,
          [A2 (translation_matrix shift); A2 (translation_matrix shift2);
           A2 (translation_matrix (zip_with fadd shift shift2))]).
Proof.
  assert (exact_on (f0 :: f1 :: shift2)) as Ht by repeat constructor.
  assert (exact_beside shift (f1 :: shift2 ++ zip_with fadd shift shift2))
    as Hs by repeat constructor.
  split_and!; [reflexivity|exact Ht|exact Hs|].
  apply (chain_of_translations shift shift2 []); [reflexivity|exact Ht|exact Hs].
Defined.

Lemma chain_of_two_shifts_apply :
  length shift = length shift2
  ∧ exact_on (f0 :: f1 :: shift2)
  ∧ exact_beside shift (f1 :: shift2 ++ zip_with fadd shift shift2)
  ∧ wf points64 = true
  ∧ np_add points64 (A1 (zip_with fadd shift shift2)) = Ok moved_twice64
  ∧ shape moved_twice64 !! 0 = Some (length shift2)
  ∧ exact_on (entries moved_twice64)
  ∧ ∃ h',
      (S ← Translation.init shift; T ← Translation.init shift2;
       C ← AffineTransformation.chain S T;
       AffineTransformation.apply C points64) []
      = Ok (moved_twice64, h').
Proof.
  assert (exact_on (f0 :: f1 :: shift2)) as Ht by repeat constructor.
  assert (exact_beside shift (f1 :: shift2 ++ zip_with fadd shift shift2))
    as Hs by repeat constructor.
  assert (exact_on (entries moved_twice64)) as Hy by repeat constructor.
  split_and!; [reflexivity|exact Ht|exact Hs|reflexivity..|exact Hy|].
  apply (chain_of_translations_apply shift shift2 points64 moved_twice64 []);
    [reflexivity|exact Ht|exact Hs|reflexivity..|exact Hy].
Defined.

(** Chained with the translation by (0, 0), the translation by (inf, 0)
    has NaN in its last row. *)
Example chain_of_infinite_shift :
  ∃ h' last,
    (S ← Translation.init [infinity; 0]%float; T ← Translation.init [0; 0]%float;
     AffineTransformation.chain S T) []
    = Ok (AffineTransformation.init 2, h')
    ∧ h' !! 2 = Some (A2 (Array2 3 3 [[1; 0; 0]; [0; 1; 0]; last]%float))
    ∧ last = [infinity; nan; nan]%float.
Proof. do 2 eexists. split_and!; reflexivity. Qed.

End float_examples.

Section duplicate_examples.
Import IntModel.
Local Open Scope Z_scope.

(** C10, as stated, fails on three sources of one content: for the
    positions 0 < 1 the lookup holds 2, the position of the last of
    them. *)
Lemma not_duplicate_maps_to_the_later_of_two :
  ¬ duplicate_maps_to_the_later_of_two [src_a; src_c; src_a].
Proof.
  intros Hclaim.
  destruct (Hclaim 0%nat 1%nat src_a src_c) as (self & hk & r & Hinit & Hk & Hlk & _);
    [lia|reflexivity..|].
  vm_compute in Hinit. injection Hinit as <-.
  vm_compute in Hk. injection Hk as <-.
  vm_compute in Hlk. discriminate Hlk.
Qed.

(** The lookup of those three sources. *)
Example lookup_of_three_equal_sources :
  ∃ self,
    ParallelAlignment.init
      (ParallelAlignment.Several [src_a; src_c; src_a]) None = Ok self
    ∧ ParallelAlignment._lookup self !! digest_of src_a = Some 2%nat.
Proof. eexists. split; reflexivity. Qed.

End duplicate_examples.
